(** * radio-browser-skill: a shallow embedding of [__init__.py]

    The skill resolves an utterance to a stream URL through the
    radio-browser directory, hands the URL to the host's audio service and
    sets the volume of the VLC sink input through PulseAudio.

    Python text is modelled by [string] (8-bit characters: the utterances
    and the daemon's output are taken to be ASCII text).  The external
    systems (directory client, inflect, word2number, pulsectl, the host's
    audio service) are the fields of a [world] record; calls to them, log
    lines included, are recorded in a trace, and every operation is a
    computation in a state-and-exception monad [M]. *)

From Stdlib Require Import ZArith Ascii String List Bool Lia PrimFloat.
From stdpp Require Import base option gmap strings.

Set Warnings "-inexact-float".

Local Open Scope Z_scope.
Local Open Scope list_scope.

(** ** Python strings *)

Module Py.

(** *** Characters *)

Definition code (c : ascii) : nat := nat_of_ascii c.

Definition is_digit (c : ascii) : bool :=
  (48 <=? code c)%nat && (code c <=? 57)%nat.

Definition is_lower (c : ascii) : bool :=
  (97 <=? code c)%nat && (code c <=? 122)%nat.

Definition is_upper (c : ascii) : bool :=
  (65 <=? code c)%nat && (code c <=? 90)%nat.

(** [\w] of the [re] module, on ASCII text. *)
Definition is_word (c : ascii) : bool :=
  is_digit c || is_lower c || is_upper c || (code c =? 95)%nat.

Definition lower_char (c : ascii) : ascii :=
  if is_upper c then ascii_of_nat (code c + 32) else c.

(** *** [str] methods and operators *)

(** [s.lower()] *)
Fixpoint lower (s : string) : string :=
  match s with
  | EmptyString => EmptyString
  | String c s' => String (lower_char c) (lower s')
  end.

(** [s.startswith(p)] *)
Fixpoint startswith (p s : string) : bool :=
  match p, s with
  | EmptyString, _ => true
  | String _ _, EmptyString => false
  | String a p', String b s' => if Ascii.eqb a b then startswith p' s' else false
  end.

(** [p in s] *)
Fixpoint contains (p s : string) : bool :=
  startswith p s ||
  match s with
  | EmptyString => false
  | String _ s' => contains p s'
  end.

(** [bool(s)]: a string is true when it is not empty. *)
Definition truthy (s : string) : bool :=
  match s with
  | EmptyString => false
  | String _ _ => true
  end.

(** [s[n:]] *)
Fixpoint drop (n : nat) (s : string) : string :=
  match n, s with
  | O, _ => s
  | S _, EmptyString => EmptyString
  | S n', String _ s' => drop n' s'
  end.

(** [s.replace("", new)]: [new] before every character and at the end. *)
Fixpoint interleave (new s : string) : string :=
  match s with
  | EmptyString => new
  | String c s' => new +:+ String c (interleave new s')
  end.

(** The scan of [s.replace(old, new)] for a non-empty [old]: left to
    right, every occurrence that does not overlap an earlier one;
    [skip] counts the characters of the current occurrence still to pass. *)
Fixpoint replace_scan (old new : string) (skip : nat) (s : string) : string :=
  match s with
  | EmptyString => EmptyString
  | String c s' =>
      match skip with
      | S k => replace_scan old new k s'
      | O =>
          if startswith old s
          then new +:+ replace_scan old new (String.length old - 1) s'
          else String c (replace_scan old new O s')
      end
  end.

(** [s.replace(old, new)] *)
Definition replace (old new s : string) : string :=
  match old with
  | EmptyString => interleave new s
  | String _ _ => replace_scan old new O s
  end.

(** *** Decimal numerals *)

Definition digit_char (d : nat) : ascii := ascii_of_nat (48 + d).

Fixpoint digits_of_pos_fuel (fuel : nat) (n : N) (acc : string) : string :=
  match fuel with
  | O => acc
  | S fuel' =>
      let acc' := String (digit_char (N.to_nat (n mod 10))) acc in
      if (n <? 10)%N then acc' else digits_of_pos_fuel fuel' (n / 10)%N acc'
  end.

(** [str(n)] for a natural number: a size bound on the numeral serves
    as fuel. *)
Definition str_N (n : N) : string :=
  digits_of_pos_fuel (S (N.to_nat (N.log2 n))) n EmptyString.

(** [str(z)] for an [int]. *)
Definition str (z : Z) : string :=
  match z with
  | Z0 => "0"
  | Zpos p => str_N (Npos p)
  | Zneg p => String "-" (str_N (Npos p))
  end.

(** [int(s)] for a string of decimal digits (what [\d+] matched). *)
Fixpoint int_acc (acc : Z) (s : string) : Z :=
  match s with
  | EmptyString => acc
  | String c s' => int_acc (10 * acc + Z.of_nat (code c - 48)) s'
  end.

Definition int (s : string) : Z := int_acc 0 s.

(** *** The regular expressions of the skill *)

(** The longest prefix of digits and what follows it. *)
Fixpoint take_digits (s : string) : string :=
  match s with
  | EmptyString => EmptyString
  | String c s' => if is_digit c then String c (take_digits s') else EmptyString
  end.

Fixpoint skip_digits (s : string) : string :=
  match s with
  | EmptyString => EmptyString
  | String c s' => if is_digit c then skip_digits s' else s
  end.

(** [" [0-9]+ "] matched at the start of [s]. *)
Definition digit_run_at (s : string) : bool :=
  match s with
  | String " " (String d s') =>
      is_digit d &&
      match skip_digits s' with
      | String " " _ => true
      | _ => false
      end
  | _ => false
  end.

(** [re.search(" [0-9]+ ", s)] as a truth value. *)
Fixpoint search_digit_run (s : string) : bool :=
  digit_run_at s ||
  match s with
  | EmptyString => false
  | String _ s' => search_digit_run s'
  end.

(** [re.findall("[0-9]+", s)]: the maximal runs of digits, in order;
    [inrun] tells that the previous character was a digit. *)
Fixpoint findall_digits_from (inrun : bool) (s : string) : list string :=
  match s with
  | EmptyString => []
  | String c s' =>
      if is_digit c
      then (if inrun then findall_digits_from true s'
            else take_digits s :: findall_digits_from true s')
      else findall_digits_from false s'
  end.

Definition findall_digits (s : string) : list string :=
  findall_digits_from false s.

(** The alternatives of [numbers_regex], in the order they are tried. *)
Definition number_words : list string :=
  ["one"; "two"; "three"; "four"; "five"; "six"; "seven"; "eight"; "nine"].

Definition head (s : string) : option ascii :=
  match s with
  | EmptyString => None
  | String c _ => Some c
  end.

Definition is_word_opt (c : option ascii) : bool :=
  match c with
  | None => false
  | Some c => is_word c
  end.

(** [\b] between the characters [prev] and [next] ([None] at either end
    of the text). *)
Definition word_boundary (prev next : option ascii) : bool :=
  xorb (is_word_opt prev) (is_word_opt next).

(** The last character of [prev :: w], as the character before what
    follows [w]. *)
Fixpoint last_char (prev : option ascii) (w : string) : option ascii :=
  match w with
  | EmptyString => prev
  | String c w' => last_char (Some c) w'
  end.

(** [\b(one|...|nine)\b] matched at the start of [s], [prev] being the
    character before: the first alternative that is followed by a
    boundary. *)
Definition number_word_at (prev : option ascii) (s : string) : option string :=
  if word_boundary prev (head s)
  then List.find
         (fun w => startswith w s &&
                   word_boundary (last_char prev w) (head (drop (String.length w) s)))
         number_words
  else None.

(** [re.findall(numbers_regex, s)]: the matched words, left to right,
    the scan resuming after each match. *)
Fixpoint findall_number_words_from
    (skip : nat) (prev : option ascii) (s : string) : list string :=
  match s with
  | EmptyString => []
  | String c s' =>
      match skip with
      | S k => findall_number_words_from k (Some c) s'
      | O =>
          match number_word_at prev s with
          | Some w =>
              w :: findall_number_words_from (String.length w - 1) (Some c) s'
          | None => findall_number_words_from O (Some c) s'
          end
      end
  end.

Definition findall_number_words (s : string) : list string :=
  findall_number_words_from O None s.

(** [re.search(numbers_regex, s)] as a truth value. *)
Fixpoint search_number_word_from (prev : option ascii) (s : string) : bool :=
  match s with
  | EmptyString => false
  | String c s' =>
      match number_word_at prev s with
      | Some _ => true
      | None => search_number_word_from (Some c) s'
      end
  end.

Definition search_number_word (s : string) : bool :=
  search_number_word_from None s.

(** [r'index: (\d+)'] matched at the start of [s]: the digits of the
    group. *)
Definition index_field_at (s : string) : option string :=
  if startswith "index: " s
  then match take_digits (drop 7 s) with
       | EmptyString => None
       | String c d => Some (String c d)
       end
  else None.

(** [re.findall(r'index: (\d+)', s)]: the group of every match. *)
Fixpoint findall_index_from (skip : nat) (s : string) : list string :=
  match s with
  | EmptyString => []
  | String _ s' =>
      match skip with
      | S k => findall_index_from k s'
      | O =>
          match index_field_at s with
          | Some d => d :: findall_index_from (6 + String.length d) s'
          | None => findall_index_from O s'
          end
      end
  end.

Definition findall_index (s : string) : list string :=
  findall_index_from O s.

(** The number of lower-case letters of a text: what every pass of the
    word-to-digit fallback decreases. *)
Fixpoint letters (s : string) : nat :=
  match s with
  | EmptyString => O
  | String c s' => (if is_lower c then 1 else 0) + letters s'
  end.


End Py.

(** ** Exceptions, events and the external world *)

Inductive exn : Type :=
| TypeError (msg : string)
| UnboundLocalError (var : string)
| KeyError (key : string)
| IndexError
| SocketTimeout
| RecursionError
| Foreign (repr : string) (derives_Exception : bool).

(** [isinstance(e, Exception)]: everything but what a library raises
    below [BaseException] only. *)
Definition is_Exception (e : exn) : bool :=
  match e with
  | Foreign _ b => b
  | _ => true
  end.

(** [isinstance(e, socket.timeout)] *)
Definition is_socket_timeout (e : exn) : bool :=
  match e with
  | SocketTimeout => true
  | _ => false
  end.

(** [repr(e)] *)
Definition repr (e : exn) : string :=
  match e with
  | TypeError msg => "TypeError('" +:+ msg +:+ "')"
  | UnboundLocalError var => "UnboundLocalError('" +:+ var +:+ "')"
  | KeyError key => "KeyError('" +:+ key +:+ "')"
  | IndexError => "IndexError('list index out of range')"
  | SocketTimeout => "timeout('timed out')"
  | RecursionError => "RecursionError('maximum recursion depth exceeded')"
  | Foreign r _ => r
  end.

Inductive outcome (A : Type) : Type :=
| Return (a : A)
| Raise (e : exn).
Arguments Return {A} a.
Arguments Raise {A} e.

(** A record of the directory service; its schema gives every record
    the two fields the skill reads. *)
Record station : Type := { name : string; url_resolved : string }.

(** The keyword arguments of [rb.search]. *)
Inductive query : Type :=
| ByName (phrase : string)
| ByTag (tag order : string).

Inductive CPSMatchLevel : Type :=
| EXACT | MULTI_KEY | TITLE | ARTIST | CATEGORY | GENERIC.

(** What the resolvers return when they return a tuple. *)
Definition match_tuple : Type := string * CPSMatchLevel * gmap string string.

(** [pulsectl]'s volume object: one value for each channel. *)
Record PulseVolumeInfo : Type := { values : list float }.

Definition channels (v : PulseVolumeInfo) : nat := length (values v).

(** [float(n)] for a length. *)
Fixpoint float_of_nat (n : nat) : float :=
  match n with
  | O => 0%float
  | S n' => (float_of_nat n' + 1)%float
  end.

(** The property [value_flat] of the volume object.  Reading it gives
    the mean of the channels, [sum(values) / float(len(values))], the sum
    taken from the left in binary64, and 0 without channels. *)
Definition value_flat (v : PulseVolumeInfo) : float :=
  match values v with
  | [] => 0%float
  | _ :: _ =>
      (fold_left PrimFloat.add (values v) 0 / float_of_nat (length (values v)))%float
  end.

(** Assigning to [value_flat] gives every channel the value:
    [values = [vol] * len(values)]. *)
Definition set_value_flat (vol : float) (v : PulseVolumeInfo) : PulseVolumeInfo :=
  {| values := repeat vol (length (values v)) |}.

(** [pulsectl]'s description of a sink input. *)
Record PulseSinkInputInfo : Type := { index : Z; volume : PulseVolumeInfo }.

Inductive event : Type :=
| LogInfo (msg : string)
| LogDebug (msg : string)
| LogException (msg : string)
| RadioBrowserNew
| RadioBrowserSearch (q : query)
| AudioStop
| AudioPlay (url : string)
| CPSPlay (url : string)
| CliConnect
| CliWrite (data : string)
| CliClose
| PulseConnect (client_name : string)
| PulseVolumeSet (sink_input : Z) (vol : PulseVolumeInfo)
| PulseClose.

(** How a control connection ends once its lines are read: the peer
    closes it, or nothing more comes and the read times out. *)
Inductive stream_end : Type := Eof | Timeout.

(** The external systems, as far as the skill can tell them apart. *)
Record world : Type := {
  (** [RadioBrowser()]: the exception it raises, if any *)
  RadioBrowser : option exn;
  (** [rb.search(...)]: the answer to a query, the same all through a
      call *)
  search : query -> outcome (list station);
  (** [inflect.engine().number_to_words] *)
  number_to_words : string -> outcome string;
  (** [w2n.word_to_num] *)
  word_to_num : string -> outcome Z;
  (** [pulsectl.connect_to_cli]: the exception it raises, if any *)
  connect_to_cli : option exn;
  (** the lines the daemon sends back for a command, as [readline]
      returns them, and how the connection ends *)
  cli_reply : string -> list string;
  cli_end : stream_end;
  (** [pulsectl.Pulse(...)]: the exception it raises, if any *)
  Pulse : option exn
}.

(** What changes during a call: the host's player, the daemon's sink
    inputs, and the trace of the calls made so far, oldest first. *)
Record state : Type := {
  is_playing : bool;
  sink_inputs : gmap Z PulseVolumeInfo;
  trace : list event
}.

(** ** The monad of the skill's operations *)

Definition M (A : Type) : Type := state -> outcome A * state.

Definition ret {A} (a : A) : M A := fun st => (Return a, st).

Definition raise {A} (e : exn) : M A := fun st => (Raise e, st).

Definition bind {A B} (m : M A) (k : A -> M B) : M B :=
  fun st =>
    match m st with
    | (Return a, st') => k a st'
    | (Raise e, st') => (Raise e, st')
    end.

Notation "x <- m ;; k" := (bind m (fun x => k))
  (at level 100, m at next level, right associativity).
Notation "m ;; k" := (bind m (fun _ => k))
  (at level 100, right associativity).

Definition lift {A} (o : outcome A) : M A := fun st => (o, st).

(** The state once further calls are on the trace. *)
Definition after (st : state) (es : list event) : state :=
  {| is_playing := is_playing st;
     sink_inputs := sink_inputs st;
     trace := trace st ++ es |}.

Definition emit (e : event) : M unit :=
  fun st => (Return tt, after st [e]).

(** [try: body  except <class> as e: handler e] *)
Definition try_except {A} (body : M A) (class : exn -> bool)
    (handler : exn -> M A) : M A :=
  fun st =>
    match body st with
    | (Return a, st') => (Return a, st')
    | (Raise e, st') => if class e then handler e st' else (Raise e, st')
    end.

(** [for x in l: s = f(s, x)] *)
Fixpoint for_each {A S} (l : list A) (s : S) (f : S -> A -> M S) : M S :=
  match l with
  | [] => ret s
  | x :: l' => s' <- f s x ;; for_each l' s' f
  end.

(** Reading a local variable that may not have been assigned. *)
Definition local {A} (var : string) (v : option A) : M A :=
  match v with
  | Some a => ret a
  | None => raise (UnboundLocalError var)
  end.

(** [d[key]] on a dict *)
Definition getitem (d : gmap string string) (key : string) : M string :=
  match d !! key with
  | Some v => ret v
  | None => raise (KeyError key)
  end.

(** A call of a constructor that may raise. *)
Definition construct (failure : option exn) : M unit :=
  match failure with
  | None => ret tt
  | Some e => raise e
  end.

(** An argument of [str.replace] as Python sees it: the skill passes a
    string in one place and a list of strings in another. *)
Inductive pyarg : Type :=
| PyStr (s : string)
| PyList (l : list string).

(** [s.replace(old, new)] with the type check of its first argument. *)
Definition str_replace (s : string) (old : pyarg) (new : string) : M string :=
  match old with
  | PyStr o => ret (Py.replace o new s)
  | PyList _ => raise (TypeError "replace() argument 1 must be str, not list")
  end.

Definition LOG_info (msg : string) : M unit := emit (LogInfo msg).
Definition LOG_debug (msg : string) : M unit := emit (LogDebug msg).
Definition LOG_exception (msg : string) : M unit := emit (LogException msg).

Definition newline : string := String (ascii_of_nat 10) EmptyString.

(** ** The operations of the skill *)

Section Skill.

Context (w : world).

(** *** The host's audio service: a player that is playing or not *)

Definition audioservice_is_playing : M bool :=
  fun st => (Return (is_playing st), st).

Definition audioservice_stop : M unit :=
  fun st =>
    (Return tt,
     {| is_playing := false;
        sink_inputs := sink_inputs st;
        trace := trace st ++ [AudioStop] |}).

Definition audioservice_play (url : string) : M unit :=
  fun st =>
    (Return tt,
     {| is_playing := true;
        sink_inputs := sink_inputs st;
        trace := trace st ++ [AudioPlay url] |}).

(** [self.CPS_play(url)], a method of the host's base class: it hands
    the URL to [audioservice.play]. *)
Definition CPS_play (url : string) : M unit :=
  emit (CPSPlay url) ;;
  audioservice_play url.

(** *** The audio daemon *)

(** [pulse.sink_input_info(i)] raises when the daemon has no sink input
    of that index. *)
Definition pulse_sink_input_info (i : Z) : M PulseSinkInputInfo :=
  fun st =>
    match sink_inputs st !! i with
    | Some v => (Return {| index := i; volume := v |}, st)
    | None => (Raise (Foreign "PulseIndexError" true), st)
    end.

(** [pulse.volume_set(client, vol)]: the write request. *)
Definition pulse_volume_set (client : PulseSinkInputInfo)
    (vol : PulseVolumeInfo) : M unit :=
  fun st =>
    (Return tt,
     {| is_playing := is_playing st;
        sink_inputs := <[index client := vol]> (sink_inputs st);
        trace := trace st ++ [PulseVolumeSet (index client) vol] |}).

(** [cli.readline()] on the lines still to come: the next line, the
    empty string at the end of the stream, or a timeout. *)
Definition readline (pending : list string) : M (string * list string) :=
  match pending with
  | line :: pending' => ret (line, pending')
  | [] =>
      match cli_end w with
      | Eof => ret (EmptyString, [])
      | Timeout => raise SocketTimeout
      end
  end.

(** The body of the loop of [find_vlc] after its [readline]: the new
    [index_id], and whether the loop is left by [break]. *)
Definition scan_line (index_id : Z) (line : string) : M (Z * bool) :=
  index_id <-
    (if Py.contains "index" line
     then match Py.findall_index line with
          | d :: _ => ret (Py.int d)
          | [] => raise IndexError
          end
     else ret index_id) ;;
  if (index_id >? -1) &&
     Py.contains "application.name" line && Py.contains "VLC" line
  then ret (index_id, true)
  else ret (index_id, false).

(** [while line: line = cli.readline(); ...], by recursion on the lines
    still to come; at the end of the stream the body runs once more on
    the empty string and the test of the loop fails. *)
Fixpoint sink_input_loop (pending : list string)
    (vlc_sink_input index_id : Z) (line : string) : M Z :=
  if Py.truthy line
  then
    match pending with
    | next :: pending' =>
        r <- scan_line index_id next ;;
        match r with
        | (index_id, true) => ret index_id
        | (index_id, false) =>
            sink_input_loop pending' vlc_sink_input index_id next
        end
    | [] =>
        match cli_end w with
        | Timeout => raise SocketTimeout
        | Eof =>
            r <- scan_line index_id EmptyString ;;
            match r with
            | (index_id, true) => ret index_id
            | (_, false) => ret vlc_sink_input
            end
        end
    end
  else ret vlc_sink_input.

Definition list_sink_inputs : string := "list-sink-inputs" +:+ newline.

Definition find_vlc : M Z :=
  emit CliConnect ;;
  construct (connect_to_cli w) ;;
  let vlc_sink_input := -1 in
  let index_id := -1 in
  emit (CliWrite list_sink_inputs) ;;
  first <- readline (cli_reply w list_sink_inputs) ;;
  let '(line, pending) := first in
  vlc_sink_input <-
    try_except (sink_input_loop pending vlc_sink_input index_id line)
      is_socket_timeout (fun _ => ret vlc_sink_input) ;;
  emit CliClose ;;
  LOG_debug ("vlc sink: " +:+ Py.str vlc_sink_input) ;;
  ret vlc_sink_input.

(** The default of the parameter [vol]. *)
Definition vol_default : float := 0.5%float.

Definition set_volume (sink_input : Z) (vol : option float) : M unit :=
  let vol := default vol_default vol in
  emit (PulseConnect "radio-skill-pulse-client") ;;
  construct (Pulse w) ;;
  client <- pulse_sink_input_info sink_input ;;
  let volume0 := volume client in
  (* [volume.value_flat = vol]: the object is the one [client] holds *)
  let volume1 := set_value_flat vol volume0 in
  let client := {| index := index client; volume := volume1 |} in
  pulse_volume_set client volume1 ;;
  emit PulseClose.

(** *** The resolvers *)

Definition rb_search (q : query) : M (list station) :=
  emit (RadioBrowserSearch q) ;;
  lift (search w q).

(** [try: rb = RadioBrowser()  except Exception as e: LOG.exception(...)]:
    the local [rb] afterwards, assigned or not. *)
Definition new_RadioBrowser : M (option unit) :=
  try_except
    (emit RadioBrowserNew ;; construct (RadioBrowser w) ;; ret (Some tt))
    is_Exception
    (fun e => LOG_exception ("Failed to load pyradios" +:+ repr e) ;; ret None).

(** [json.loads(json.dumps(results))] gives the records back. *)
Definition json_roundtrip (results : list station) : list station := results.

(** The body of [match_station_name]; [self] stands for the function
    in its recursive calls. *)
Definition match_station_name_body
    (self : string -> M (option match_tuple)) (phrase : string)
    : M (option match_tuple) :=
  rb <- new_RadioBrowser ;;
  LOG_info ("Searching for " +:+ phrase) ;;
  local "rb" rb ;;
  results <- rb_search (ByName phrase) ;;
  let parsed := json_roundtrip results in
  match parsed with
  | first :: _ =>
      LOG_info ("Found " +:+ name first +:+ " (" +:+ url_resolved first +:+ ")") ;;
      ret (Some (phrase, EXACT, {["url" := url_resolved first]}))
  | [] =>
      if Py.search_digit_run phrase
      then
        let num := Py.findall_digits phrase in
        phrase <-
          for_each num phrase
            (fun phrase number =>
               words <- lift (number_to_words w number) ;;
               str_replace phrase (PyList num) words) ;;
        self phrase ;;
        ret None
      else if Py.search_number_word phrase
      then
        let num := Py.findall_number_words phrase in
        phrase <-
          for_each num phrase
            (fun phrase number =>
               n <- lift (word_to_num w number) ;;
               str_replace phrase (PyStr number) (Py.str n)) ;;
        self phrase ;;
        ret None
      else ret None
  end.

(** The recursion, to a given depth. *)
Fixpoint match_station_name_rec (depth : nat) (phrase : string)
    : M (option match_tuple) :=
  match depth with
  | O => raise RecursionError
  | S depth' => match_station_name_body (match_station_name_rec depth') phrase
  end.

(** Every recursive call is on a phrase with fewer letters (see
    [match_station_name_unfold]), so this depth is never used up. *)
Definition match_station_name (phrase : string) : M (option match_tuple) :=
  match_station_name_rec (S (Py.letters phrase)) phrase.

Definition match_genre (phrase : string) : M (option match_tuple) :=
  let stripped_phrase :=
    Py.replace " station" "" (Py.replace "a " "" (Py.lower phrase)) in
  rb <- new_RadioBrowser ;;
  LOG_info ("Searching for a " +:+ stripped_phrase +:+ " station") ;;
  local "rb" rb ;;
  results <- rb_search (ByTag stripped_phrase "votes") ;;
  let parsed := json_roundtrip results in
  match parsed with
  | first :: _ =>
      LOG_info ("Found " +:+ name first +:+ " (" +:+ url_resolved first +:+ ")") ;;
      ret (Some (phrase, EXACT, {["url" := url_resolved first]}))
  | [] =>
      match_station_name phrase ;;
      ret None
  end.

(** *** The skill class *)

Inductive resolver : Type := GenreResolver | StationResolver.

(** The test [if "a " and " station" in search_phrase]: [in] binds
    tighter than [and], whose left operand is the string ["a "] itself. *)
Definition CPS_route (phrase : string) : resolver :=
  let search_phrase := Py.lower phrase in
  if Py.truthy "a " && Py.contains " station" search_phrase
  then GenreResolver
  else StationResolver.

Definition CPS_match_query_phrase (phrase : string) : M (option match_tuple) :=
  let search_phrase := Py.lower phrase in
  match CPS_route phrase with
  | GenreResolver => match_genre search_phrase
  | StationResolver => match_station_name phrase
  end.

Definition CPS_start (phrase : string) (data : gmap string string) : M unit :=
  playing <- audioservice_is_playing ;;
  (if playing then audioservice_stop else ret tt) ;;
  url <- getitem data "url" ;;
  LOG_info ("Playing from " +:+ url) ;;
  audioservice_play url.

(** [matched_station[2]['url']] *)
Definition matched_url (matched_station : option match_tuple) : M string :=
  match matched_station with
  | None => raise (TypeError "'NoneType' object is not subscriptable")
  | Some (_, _, data) => getitem data "url"
  end.

Definition handle_intent (message_data : gmap string string) (type : string)
    : M unit :=
  utterance <- getitem message_data type ;;
  matched_station <- match_station_name utterance ;;
  url <- matched_url matched_station ;;
  LOG_info ("Playing from " +:+ url) ;;
  url <- matched_url matched_station ;;
  CPS_play url ;;
  vlc <- find_vlc ;;
  LOG_info "setting volume for VLC to 0.6" ;;
  set_volume vlc (Some 0.6%float).

(** The two intent handlers: the slot they read is all that differs. *)
Definition handle_radio_station (message_data : gmap string string) : M unit :=
  handle_intent message_data "station".

Definition handle_radio_genre (message_data : gmap string string) : M unit :=
  handle_intent message_data "genre".

End Skill.

(** ** Notions used to state the properties *)


(** The tag of the genre search (the local [stripped_phrase]). *)
Definition stripped_phrase (phrase : string) : string :=
  Py.replace " station" "" (Py.replace "a " "" (Py.lower phrase)).


(** The index a line of the transcript carries, if it is an index line:
    it has the word and a field [index: <digits>]. *)
Definition index_of_line (line : string) : option Z :=
  if Py.contains "index" line
  then match Py.findall_index line with
       | d :: _ => Some (Py.int d)
       | [] => None
       end
  else None.

(** A line of a sink block below its index line: a line that was read
    (so not empty) and does not mention an index. *)
Definition property_line (line : string) : bool :=
  Py.truthy line && negb (Py.contains "index" line).

(** An [application.name] line containing [VLC]. *)
Definition vlc_line (line : string) : bool :=
  Py.contains "application.name" line && Py.contains "VLC" line.

(** A sink block of index [i]: its index line, then property lines. *)
Definition sink_block (i : Z) (block : list string) : bool :=
  match block with
  | [] => false
  | line :: properties =>
      match index_of_line line with
      | Some j => (j =? i) && forallb property_line properties
      | None => false
      end
  end.

Definition block_has_vlc (block : list string) : bool :=
  existsb vlc_line block.

(** The world in which the daemon answers every command with [lines]. *)
Definition with_reply (w : world) (lines : list string) : world :=
  {| RadioBrowser := RadioBrowser w;
     search := search w;
     number_to_words := number_to_words w;
     word_to_num := word_to_num w;
     connect_to_cli := connect_to_cli w;
     cli_reply := fun _ => lines;
     cli_end := cli_end w;
     Pulse := Pulse w |}.

(** Every [AudioPlay] of a trace comes when the player, [playing] at
    first, is stopped. *)
Fixpoint plays_when_stopped (playing : bool) (es : list event) : bool :=
  match es with
  | [] => true
  | AudioStop :: es' => plays_when_stopped false es'
  | AudioPlay _ :: es' => negb playing && plays_when_stopped true es'
  | _ :: es' => plays_when_stopped playing es'
  end.

(** The results of a resolver that are a match. *)
Definition is_match {A} (o : outcome (option A)) : bool :=
  match o with
  | Return (Some _) => true
  | _ => false
  end.

(** A call whose value is thrown away: what is left of [m] in
    [m ;; ret None]. *)
Definition discarded {A B} (o : outcome A) : outcome (option B) :=
  match o with
  | Return _ => Return None
  | Raise e => Raise e
  end.

(** A computation that leaves the player and the daemon alone and only
    adds to the trace. *)
Definition appends {A} (m : M A) : Prop :=
  forall st, exists es, snd (m st) = after st es.

(** A computation that puts on the trace only events that [P] allows,
    whatever else it does. *)
Definition emits_only (P : event -> bool) {A} (m : M A) : Prop :=
  forall st, exists es,
    trace (snd (m st)) = trace st ++ es /\ forallb P es = true.

Definition is_search (e : event) : bool :=
  match e with
  | RadioBrowserSearch _ => true
  | _ => false
  end.

Definition is_tag_search (e : event) : bool :=
  match e with
  | RadioBrowserSearch (ByTag _ _) => true
  | _ => false
  end.

(** The events of a resolver: log lines and calls of the directory
    client. *)
Definition resolver_event (e : event) : bool :=
  match e with
  | LogInfo _ | LogException _ | RadioBrowserNew | RadioBrowserSearch _ => true
  | _ => false
  end.

(** The events of the station resolver: no search but by name. *)
Definition station_event (e : event) : bool :=
  match e with
  | LogInfo _ | LogException _ | RadioBrowserNew
  | RadioBrowserSearch (ByName _) => true
  | _ => false
  end.


(** The state once a handler has logged the URL and called [CPS_play]. *)
Definition started (st : state) (url : string) : state :=
  {| is_playing := true;
     sink_inputs := sink_inputs st;
     trace := trace st ++ [LogInfo ("Playing from " +:+ url);
                           CPSPlay url; AudioPlay url] |}.

(** The number of searches on a trace. *)
Definition count_searches (es : list event) : nat :=
  length (List.filter is_search es).

(** A computation that only adds to the trace, at most [n] searches. *)
Definition searches_at_most (n : nat) {A} (m : M A) (st : state) : Prop :=
  exists es, snd (m st) = after st es /\ (count_searches es <= n)%nat.

(** The phrase of the retry of the word fallback, [value] giving the
    number of each word. *)
Definition words_to_digits (value : string -> Z) (phrase : string) : string :=
  fold_left (fun phrase number => Py.replace number (Py.str (value number)) phrase)
    (Py.findall_number_words phrase) phrase.

(** The index of the first of some sink blocks that has a VLC line,
    -1 when none has. *)
Fixpoint first_vlc (blocks : list (Z * list string)) : Z :=
  match blocks with
  | [] => -1
  | (i, block) :: blocks' =>
      if block_has_vlc block then i else first_vlc blocks'
  end.

(** The lines of some sink blocks, one block after the other. *)
Definition block_lines (blocks : list (Z * list string)) : list string :=
  concat (map snd blocks).

Definition sink_blocks (blocks : list (Z * list string)) : bool :=
  forallb (fun b => sink_block (fst b) (snd b)) blocks.

(** A line the scan passes without an error: if it has the word
    [index], it has the field. *)
Definition parses (line : string) : bool :=
  negb (Py.contains "index" line) ||
  match Py.findall_index line with
  | [] => false
  | _ :: _ => true
  end.

(** ** Sample worlds *)

Module Sample.

Definition bbc_one : station :=
  {| name := "BBC Radio 1"; url_resolved := "http://stream.example/bbc1" |}.

Definition jazz_fm : station :=
  {| name := "Jazz FM"; url_resolved := "http://stream.example/jazz" |}.

(** A directory that knows one station by name and one tag. *)
Definition directory (q : query) : outcome (list station) :=
  match q with
  | ByName "bbc radio 1" => Return [bbc_one]
  | ByName "smooth station" => Return [jazz_fm]
  | ByTag "jazz radio" "votes" => Return [jazz_fm; bbc_one]
  | _ => Return []
  end.

Definition to_words (number : string) : outcome string :=
  match number with
  | "1" => Return "one"
  | "2" => Return "two"
  | _ => Return "zero"
  end.

Definition to_num (word : string) : outcome Z :=
  match word with
  | "one" => Return 1
  | "two" => Return 2
  | _ => Return 0
  end.

(** Sink blocks as [list-sink-inputs] prints them, cut down to the two
    lines the skill looks at. *)
Definition index_line (i : Z) : string :=
  "    index: " +:+ Py.str i +:+ newline.

Definition name_line (application : string) : string :=
  "        application.name = '" +:+ application +:+ "'" +:+ newline.

Definition mpv_3 : list string := [index_line 3; name_line "mpv"].
Definition vlc_7 : list string := [index_line 7; name_line "VLC media player"].
Definition vlc_5 : list string := [index_line 5; name_line "VLC media player"].
Definition mpv_9 : list string := [index_line 9; name_line "mpv"].
Definition vlc_9 : list string := [index_line 9; name_line "VLC media player"].

(** The line the daemon sends first. *)
Definition count_line : string := "2 sink input(s) available." +:+ newline.

(** The daemon's answer: the count line, an [mpv] stream of index 3 and
    a VLC stream of index 7. *)
Definition two_sinks : list string := count_line :: mpv_3 ++ vlc_7.

(** Two sink blocks and nothing before them: VLC of index 5, then
    [mpv] of index 9. *)
Definition blocks_only : list string := vlc_5 ++ mpv_9.

(** Two VLC streams and nothing before them. *)
Definition two_vlc : list string := vlc_5 ++ vlc_9.

Definition home : world :=
  {| RadioBrowser := None;
     search := directory;
     number_to_words := to_words;
     word_to_num := to_num;
     connect_to_cli := None;
     cli_reply := fun _ => two_sinks;
     cli_end := Timeout;
     Pulse := None |}.

(** The same, the directory client failing to load. *)
Definition offline : world :=
  {| RadioBrowser := Some (Foreign "ConnectionError('no route to host')" true);
     search := directory;
     number_to_words := to_words;
     word_to_num := to_num;
     connect_to_cli := None;
     cli_reply := fun _ => two_sinks;
     cli_end := Timeout;
     Pulse := None |}.

Definition loud : PulseVolumeInfo := {| values := [1%float; 1%float] |}.

(** A stream of ten channels at full volume. *)
Definition surround : PulseVolumeInfo := {| values := repeat 1%float 10 |}.


(** Nothing playing, the VLC sink input of index 7 at full volume. *)
Definition quiet : state :=
  {| is_playing := false; sink_inputs := {[ 7 := loud ]}; trace := [] |}.

(** Nothing playing, the VLC sink input of index 7 with ten channels. *)
Definition cinema : state :=
  {| is_playing := false; sink_inputs := {[ 7 := surround ]}; trace := [] |}.

(** Something playing. *)
Definition busy : state :=
  {| is_playing := true; sink_inputs := {[ 7 := loud ]}; trace := [] |}.

(** The directory out of reach: the client loads, every search fails. *)
Definition down : world :=
  {| RadioBrowser := None;
     search := fun _ => Raise (Foreign "ConnectionError('timed out')" true);
     number_to_words := to_words;
     word_to_num := to_num;
     connect_to_cli := None;
     cli_reply := fun _ => two_sinks;
     cli_end := Timeout;
     Pulse := None |}.

(** No audio daemon. *)
Definition no_daemon : world :=
  {| RadioBrowser := None;
     search := directory;
     number_to_words := to_words;
     word_to_num := to_num;
     connect_to_cli := Some (Foreign "FileNotFoundError('cli socket')" true);
     cli_reply := fun _ => [];
     cli_end := Timeout;
     Pulse := Some (Foreign "PulseError('connect failed')" true) |}.

(** Three sink inputs, VLC the last. *)
Definition three_blocks : list (Z * list string) :=
  [(3, mpv_3); (9, mpv_9); (7, vlc_7)].

Definition to_value (word : string) : Z :=
  match word with
  | "one" => 1
  | "two" => 2
  | _ => 0
  end.

End Sample.

(** * Properties *)

(** ** Facts about the string functions *)

Module PyFacts.
Import Py.

Lemma app_cons (c : ascii) (a b : string) :
  String c a +:+ b = String c (a +:+ b).
Proof. reflexivity. Qed.

Lemma letters_cons (c : ascii) (s : string) :
  letters (String c s) = ((if is_lower c then 1 else 0) + letters s)%nat.
Proof. reflexivity. Qed.

Lemma letters_app (a b : string) :
  letters (a +:+ b) = (letters a + letters b)%nat.
Proof.
  induction a as [|c a IH]; [reflexivity|].
  rewrite app_cons. simpl. rewrite IH. lia.
Qed.

Lemma startswith_split (p s : string) :
  startswith p s = true -> s = p +:+ drop (String.length p) s.
Proof.
  revert s. induction p as [|a p IH]; intros s H; simpl in *; [reflexivity|].
  destruct s as [|b s]; [discriminate|].
  destruct (Ascii.eqb a b) eqn:E; [|discriminate].
  apply Ascii.eqb_eq in E. subst b. rewrite app_cons. simpl.
  f_equal. apply IH, H.
Qed.

Lemma replace_scan_skip (old new : string) (k : nat) (s : string) :
  replace_scan old new k s = replace_scan old new O (drop k s).
Proof.
  revert k. induction s as [|c s IH]; intros [|k]; try reflexivity.
  simpl replace_scan at 1. simpl drop. apply IH.
Qed.

Lemma replace_scan_hit (old new s : string) :
  old <> EmptyString -> startswith old s = true ->
  replace_scan old new O s =
  new +:+ replace_scan old new O (drop (String.length old) s).
Proof.
  intros Hne H. destruct s as [|c s].
  - destruct old; [congruence | discriminate].
  - simpl replace_scan. rewrite H. f_equal.
    rewrite replace_scan_skip. f_equal.
    destruct old as [|a old]; [congruence|]. simpl.
    now rewrite Nat.sub_0_r.
Qed.

Lemma replace_scan_miss (old new : string) (c : ascii) (s : string) :
  startswith old (String c s) = false ->
  replace_scan old new O (String c s) = String c (replace_scan old new O s).
Proof. intros H. simpl replace_scan. now rewrite H. Qed.

Lemma letters_replace_scan_le (old new : string) (k : nat) (s : string) :
  letters new = O ->
  (letters (replace_scan old new k s) <= letters s)%nat.
Proof.
  intros Hnew. revert k. induction s as [|c s IH]; intros k; [simpl; lia|].
  destruct k as [|k].
  - simpl replace_scan. destruct (startswith old (String c s)).
    + rewrite letters_app, Hnew. specialize (IH (String.length old - 1)%nat).
      simpl. lia.
    + specialize (IH O). simpl. lia.
  - simpl replace_scan. specialize (IH k). simpl. lia.
Qed.

Lemma letters_interleave (new s : string) :
  letters new = O -> letters (interleave new s) = letters s.
Proof.
  intros Hnew. induction s as [|c s IH]; simpl; [assumption|].
  rewrite letters_app, Hnew. simpl. now rewrite IH.
Qed.

Lemma letters_replace_le (old new s : string) :
  letters new = O -> (letters (replace old new s) <= letters s)%nat.
Proof.
  intros Hnew. destruct old as [|a old]; simpl.
  - rewrite letters_interleave by assumption. lia.
  - now apply letters_replace_scan_le.
Qed.

Lemma contains_cons (p : string) (c : ascii) (s : string) :
  contains p (String c s) = startswith p (String c s) || contains p s.
Proof. reflexivity. Qed.

Lemma letters_replace_lt (old new s : string) :
  letters new = O -> (0 < letters old)%nat -> contains old s = true ->
  (letters (replace old new s) < letters s)%nat.
Proof.
  intros Hnew Hold.
  assert (Hne : old <> EmptyString) by (intros ->; simpl in Hold; lia).
  unfold replace. destruct old as [|a old]; [congruence|].
  set (o := String a old) in *.
  induction s as [|c s IH]; intros Hc.
  - simpl in Hc. discriminate.
  - rewrite contains_cons in Hc.
    destruct (startswith o (String c s)) eqn:E.
    + rewrite replace_scan_hit by assumption.
      rewrite letters_app, Hnew.
      pose proof (letters_replace_scan_le o new O
                    (drop (String.length o) (String c s)) Hnew) as Hle.
      apply startswith_split in E.
      assert (letters (String c s) =
              (letters o + letters (drop (String.length o) (String c s)))%nat)
        as Hs by (rewrite E at 1; apply letters_app).
      lia.
    + simpl in Hc. rewrite replace_scan_miss by assumption.
      specialize (IH Hc). simpl. lia.
Qed.

(** The numerals have no letters. *)

Lemma is_lower_digit_char (d : nat) :
  (d < 10)%nat -> is_lower (digit_char d) = false.
Proof.
  intros H. do 10 (destruct d as [|d]; [reflexivity|]). lia.
Qed.

Lemma letters_digits_of_pos_fuel (fuel : nat) (n : N) (acc : string) :
  letters acc = O -> letters (digits_of_pos_fuel fuel n acc) = O.
Proof.
  revert n acc. induction fuel as [|fuel IH]; intros n acc Hacc; simpl;
    [assumption|].
  assert (Hd : letters (String (digit_char (N.to_nat (n mod 10))) acc) = O).
  { rewrite letters_cons, is_lower_digit_char, Hacc; [reflexivity|].
    pose proof (N.mod_upper_bound n 10). lia. }
  destruct (n <? 10)%N; [assumption|]. now apply IH.
Qed.

Lemma letters_str (z : Z) : letters (str z) = O.
Proof.
  destruct z as [|p|p]; simpl; [reflexivity| |];
    unfold str_N; now rewrite letters_digits_of_pos_fuel.
Qed.

(** What [numbers_regex] finds. *)

Lemma number_words_letters (w : string) :
  In w number_words -> (0 < letters w)%nat.
Proof.
  unfold number_words. simpl.
  intros H; repeat (destruct H as [<-|H]; [simpl; lia|]); destruct H.
Qed.

Lemma number_word_at_Some (prev : option ascii) (s w : string) :
  number_word_at prev s = Some w ->
  In w number_words /\ startswith w s = true.
Proof.
  unfold number_word_at. destruct (word_boundary prev (head s)); [|discriminate].
  intros H. apply List.find_some in H. destruct H as [Hin Hb].
  apply andb_true_iff in Hb. tauto.
Qed.

Lemma contains_startswith (p s : string) :
  startswith p s = true -> contains p s = true.
Proof. intros H. destruct s; simpl in *; now rewrite H. Qed.

Lemma contains_tail (p : string) (c : ascii) (s : string) :
  contains p s = true -> contains p (String c s) = true.
Proof. intros H. simpl. rewrite H. apply orb_true_r. Qed.

Lemma search_number_word_found (prev : option ascii) (s : string) :
  search_number_word_from prev s = true ->
  exists w ws,
    findall_number_words_from O prev s = w :: ws /\
    In w number_words /\ contains w s = true.
Proof.
  revert prev. induction s as [|c s IH]; intros prev H; simpl in H;
    [discriminate|].
  simpl findall_number_words_from.
  destruct (number_word_at prev (String c s)) as [w|] eqn:E.
  - apply number_word_at_Some in E. destruct E as [Hin Hsw].
    eexists _, _. split; [reflexivity|]. split; [assumption|].
    now apply contains_startswith.
  - destruct (IH _ H) as (w & ws & Hf & Hin & Hc).
    exists w, ws. split; [assumption|]. split; [assumption|].
    now apply contains_tail.
Qed.

(** What [" [0-9]+ "] and ["[0-9]+"] find. *)

Lemma findall_digits_from_tail (c : ascii) (s : string) :
  findall_digits_from false s <> [] ->
  findall_digits_from false (String c s) <> [].
Proof.
  intros H. simpl. destruct (is_digit c); [discriminate | assumption].
Qed.

Lemma search_digit_run_found (s : string) :
  search_digit_run s = true -> findall_digits s <> [].
Proof.
  unfold findall_digits. induction s as [|c s IH]; intros H; simpl in H.
  - discriminate.
  - apply orb_true_iff in H. destruct H as [H|H].
    + destruct c as [[] [] [] [] [] [] [] []]; try discriminate.
      destruct s as [|d s]; [discriminate|].
      apply andb_true_iff in H. destruct H as [Hd _].
      simpl. rewrite Hd. discriminate.
    + apply findall_digits_from_tail. now apply IH.
Qed.

End PyFacts.

(** ** Facts about the monad *)

Lemma after_after (st : state) (a b : list event) :
  after (after st a) b = after st (a ++ b).
Proof. unfold after. simpl. now rewrite <- app_assoc. Qed.

Lemma after_nil (st : state) : after st [] = st.
Proof. destruct st. unfold after. simpl. now rewrite app_nil_r. Qed.

Lemma bind_ext {A B} (m : M A) (k1 k2 : A -> M B) (st : state) :
  (forall a st', m st = (Return a, st') -> k1 a st' = k2 a st') ->
  bind m k1 st = bind m k2 st.
Proof.
  intros H. unfold bind. destruct (m st) as [[a|e] st']; [|reflexivity].
  now apply H.
Qed.

Lemma bind_Return {A B} (m : M A) (k : A -> M B) (st : state) (b : B) :
  fst (bind m k st) = Return b ->
  exists a st', m st = (Return a, st') /\ fst (k a st') = Return b.
Proof.
  unfold bind. destruct (m st) as [[a|e] st']; [|discriminate].
  intros H. now exists a, st'.
Qed.

Lemma appends_ret {A} (a : A) : appends (ret a).
Proof. intros st. exists []. simpl. now rewrite after_nil. Qed.

Lemma appends_raise {A} (e : exn) : appends (@raise A e).
Proof. intros st. exists []. simpl. now rewrite after_nil. Qed.

Lemma appends_lift {A} (o : outcome A) : appends (lift o).
Proof. intros st. exists []. simpl. now rewrite after_nil. Qed.

Lemma appends_emit (e : event) : appends (emit e).
Proof. intros st. now exists [e]. Qed.

Lemma appends_bind {A B} (m : M A) (k : A -> M B) :
  appends m -> (forall a, appends (k a)) -> appends (bind m k).
Proof.
  intros Hm Hk st. unfold bind. destruct (Hm st) as [es Hes].
  destruct (m st) as [[a|e] st1]; simpl in Hes; subst st1.
  - destruct (Hk a (after st es)) as [es' Hes']. exists (es ++ es').
    now rewrite Hes', after_after.
  - now exists es.
Qed.

Lemma appends_try_except {A} (body : M A) (class : exn -> bool)
    (handler : exn -> M A) :
  appends body -> (forall e, appends (handler e)) ->
  appends (try_except body class handler).
Proof.
  intros Hb Hh st. unfold try_except. destruct (Hb st) as [es Hes].
  destruct (body st) as [[a|e] st1]; simpl in Hes; subst st1.
  - now exists es.
  - destruct (class e); [|now exists es].
    destruct (Hh e (after st es)) as [es' Hes']. exists (es ++ es').
    now rewrite Hes', after_after.
Qed.

Lemma appends_for_each {A S} (l : list A) (s : S) (f : S -> A -> M S) :
  (forall s x, appends (f s x)) -> appends (for_each l s f).
Proof.
  intros Hf. revert s. induction l as [|x l IH]; intros s; simpl.
  - apply appends_ret.
  - apply appends_bind; [apply Hf | intros s'; apply IH].
Qed.

Lemma appends_local {A} (var : string) (v : option A) : appends (local var v).
Proof. destruct v; [apply appends_ret | apply appends_raise]. Qed.

Lemma appends_construct (failure : option exn) : appends (construct failure).
Proof. destruct failure; [apply appends_raise | apply appends_ret]. Qed.

Lemma appends_str_replace (s : string) (old : pyarg) (new : string) :
  appends (str_replace s old new).
Proof. destruct old; [apply appends_ret | apply appends_raise]. Qed.

Create HintDb appends.

#[local] Hint Resolve appends_ret appends_raise appends_lift appends_emit
  appends_local appends_construct appends_str_replace : appends.

Ltac appends_steps :=
  repeat first
    [ apply appends_bind; [|intros ?]
    | apply appends_try_except; [|intros ?]
    | apply appends_for_each; intros ? ?
    | progress (unfold LOG_info, LOG_debug, LOG_exception)
    | solve [auto with appends] ].

(** ** Facts about the resolvers *)

Section ResolverFacts.

Context (w : world).

Lemma new_RadioBrowser_loaded (st : state) :
  RadioBrowser w = None ->
  new_RadioBrowser w st = (Return (Some tt), after st [RadioBrowserNew]).
Proof.
  intros H. unfold new_RadioBrowser, try_except, bind, emit, construct.
  now rewrite H.
Qed.

Lemma new_RadioBrowser_caught (e : exn) (st : state) :
  RadioBrowser w = Some e -> is_Exception e = true ->
  new_RadioBrowser w st =
  (Return None,
   after st [RadioBrowserNew;
             LogException ("Failed to load pyradios" +:+ repr e)]).
Proof.
  intros H He. unfold new_RadioBrowser, try_except, bind, emit, construct.
  rewrite H. unfold raise. rewrite He. unfold LOG_exception, emit, ret.
  now rewrite after_after.
Qed.

(** What is not an [Exception] passes the handler. *)
Lemma new_RadioBrowser_uncaught (e : exn) (st : state) :
  RadioBrowser w = Some e -> is_Exception e = false ->
  new_RadioBrowser w st = (Raise e, after st [RadioBrowserNew]).
Proof.
  intros H He. unfold new_RadioBrowser, try_except, bind, emit, construct.
  rewrite H. unfold raise. now rewrite He.
Qed.

Lemma appends_new_RadioBrowser : appends (new_RadioBrowser w).
Proof. unfold new_RadioBrowser. appends_steps. Qed.

Lemma appends_rb_search (q : query) : appends (rb_search w q).
Proof. unfold rb_search. appends_steps. Qed.

(** The loop of the digit fallback stops in its first pass. *)
Lemma digit_loop_raises (num : list string) (number : string)
    (rest : list string) (phrase : string) (st : state) :
  for_each (number :: rest) phrase
    (fun phrase number =>
       words <- lift (number_to_words w number) ;;
       str_replace phrase (PyList num) words) st =
  (Raise match number_to_words w number with
         | Return _ => TypeError "replace() argument 1 must be str, not list"
         | Raise e => e
         end, st).
Proof.
  simpl. unfold bind, lift. now destruct (number_to_words w number).
Qed.

(** The loop of the word fallback only takes letters away. *)
Lemma word_loop_le (num : list string) (phrase phrase' : string)
    (st st' : state) :
  for_each num phrase
    (fun phrase number =>
       n <- lift (word_to_num w number) ;;
       str_replace phrase (PyStr number) (Py.str n)) st =
  (Return phrase', st') ->
  (Py.letters phrase' <= Py.letters phrase)%nat.
Proof.
  revert phrase st. induction num as [|number num IH]; intros phrase st; simpl.
  - unfold ret. intros [= <- _]. lia.
  - unfold bind at 1 2, lift. destruct (word_to_num w number) as [n|e];
      [|discriminate].
    simpl. intros H. apply IH in H.
    pose proof (PyFacts.letters_replace_le number (Py.str n) phrase
                  (PyFacts.letters_str n)). lia.
Qed.

Lemma word_loop_lt (number : string) (num : list string)
    (phrase phrase' : string) (st st' : state) :
  In number Py.number_words -> Py.contains number phrase = true ->
  for_each (number :: num) phrase
    (fun phrase number =>
       n <- lift (word_to_num w number) ;;
       str_replace phrase (PyStr number) (Py.str n)) st =
  (Return phrase', st') ->
  (Py.letters phrase' < Py.letters phrase)%nat.
Proof.
  intros Hin Hc. simpl. unfold bind at 1 2, lift.
  destruct (word_to_num w number) as [n|e]; [|discriminate].
  simpl. intros H. apply word_loop_le in H.
  pose proof (PyFacts.letters_replace_lt number (Py.str n) phrase
                (PyFacts.letters_str n)
                (PyFacts.number_words_letters _ Hin) Hc). lia.
Qed.

(** The body of the resolver calls [self] on phrases with fewer
    letters only. *)
Lemma match_station_name_body_ext
    (self1 self2 : string -> M (option match_tuple)) (phrase : string)
    (st : state) :
  (forall p st', (Py.letters p < Py.letters phrase)%nat ->
                 self1 p st' = self2 p st') ->
  match_station_name_body w self1 phrase st =
  match_station_name_body w self2 phrase st.
Proof.
  intros Hself. unfold match_station_name_body.
  apply bind_ext; intros rb st1 _.
  apply bind_ext; intros _ st2 _.
  apply bind_ext; intros _ st3 _.
  apply bind_ext; intros results st4 _.
  destruct (json_roundtrip results) as [|first rest]; [|reflexivity].
  destruct (Py.search_digit_run phrase) eqn:Hd.
  - apply PyFacts.search_digit_run_found in Hd.
    destruct (Py.findall_digits phrase) as [|number num] eqn:Hf; [congruence|].
    apply bind_ext; intros phrase' st5 Hloop.
    rewrite digit_loop_raises in Hloop. discriminate.
  - destruct (Py.search_number_word phrase) eqn:Hw; [|reflexivity].
    apply PyFacts.search_number_word_found in Hw.
    destruct Hw as (number & num & Hf & Hin & Hc).
    unfold Py.findall_number_words. rewrite Hf.
    apply bind_ext; intros phrase' st5 Hloop.
    apply word_loop_lt in Hloop; [|assumption..].
    unfold bind. now rewrite Hself.
Qed.

Lemma match_station_name_rec_depth (d1 d2 : nat) (phrase : string)
    (st : state) :
  (Py.letters phrase < d1)%nat -> (Py.letters phrase < d2)%nat ->
  match_station_name_rec w d1 phrase st = match_station_name_rec w d2 phrase st.
Proof.
  revert d2 phrase st. induction d1 as [|d1 IH]; intros d2 phrase st H1 H2;
    [lia|].
  destruct d2 as [|d2]; [lia|]. simpl.
  apply match_station_name_body_ext. intros p st' Hp. apply IH; lia.
Qed.

(** [match_station_name] is the function its source defines: it
    satisfies the recursive equation of its body. *)
Lemma match_station_name_unfold (phrase : string) (st : state) :
  match_station_name w phrase st =
  match_station_name_body w (match_station_name w) phrase st.
Proof.
  unfold match_station_name at 1. simpl.
  apply match_station_name_body_ext. intros p st' Hp.
  unfold match_station_name. apply match_station_name_rec_depth; lia.
Qed.

Lemma appends_match_station_name_body
    (self : string -> M (option match_tuple)) (phrase : string) :
  (forall p, appends (self p)) ->
  appends (match_station_name_body w self phrase).
Proof.
  intros Hself. unfold match_station_name_body.
  apply appends_bind; [apply appends_new_RadioBrowser | intros rb].
  apply appends_bind; [apply appends_emit | intros _].
  apply appends_bind; [apply appends_local | intros _].
  apply appends_bind; [apply appends_rb_search | intros results].
  destruct (json_roundtrip results); [|appends_steps].
  destruct (Py.search_digit_run phrase);
    [|destruct (Py.search_number_word phrase)]; appends_steps; apply Hself.
Qed.

Lemma appends_match_station_name (phrase : string) :
  appends (match_station_name w phrase).
Proof.
  unfold match_station_name. generalize (S (Py.letters phrase)) as d.
  intros d. revert phrase. induction d as [|d IH]; intros phrase; simpl.
  - apply appends_raise.
  - now apply appends_match_station_name_body.
Qed.

(** A resolver that returns a tuple returns it from its first branch:
    the phrase it was given, the exact level, the first result's URL. *)
Lemma match_station_name_body_tuple
    (self : string -> M (option match_tuple)) (phrase : string)
    (st : state) (t : match_tuple) :
  fst (match_station_name_body w self phrase st) = Return (Some t) ->
  exists first rest,
    search w (ByName phrase) = Return (first :: rest) /\
    t = (phrase, EXACT, {["url" := url_resolved first]}).
Proof.
  unfold match_station_name_body. intros H.
  apply bind_Return in H. destruct H as (rb & st1 & _ & H).
  apply bind_Return in H. destruct H as (_ & st2 & _ & H).
  apply bind_Return in H. destruct H as (_ & st3 & _ & H).
  apply bind_Return in H. destruct H as (results & st4 & Hs & H).
  assert (Hres : search w (ByName phrase) = Return results).
  { unfold rb_search, bind, emit, lift in Hs.
    destruct (search w (ByName phrase)); now inversion Hs. }
  unfold json_roundtrip in H. destruct results as [|first rest].
  - destruct (Py.search_digit_run phrase);
      [|destruct (Py.search_number_word phrase)]; [| |discriminate];
      apply bind_Return in H; destruct H as (phrase' & st5 & _ & H);
      apply bind_Return in H; destruct H as (_ & st6 & _ & H);
      discriminate.
  - apply bind_Return in H. destruct H as (_ & st5 & _ & H).
    simpl in H. injection H as <-. now exists first, rest.
Qed.

End ResolverFacts.

(** ** Running a computation step by step *)

Lemma bind_step {A B} (m : M A) (k : A -> M B) (st st' : state) (a : A) :
  m st = (Return a, st') -> bind m k st = k a st'.
Proof. intros H. unfold bind. now rewrite H. Qed.

Lemma bind_fail {A B} (m : M A) (k : A -> M B) (st st' : state) (e : exn) :
  m st = (Raise e, st') -> bind m k st = (Raise e, st').
Proof. intros H. unfold bind. now rewrite H. Qed.

Lemma bind_emit {B} (e : event) (k : unit -> M B) (st : state) :
  bind (emit e) k st = k tt (after st [e]).
Proof. reflexivity. Qed.

Lemma bind_ret {A B} (a : A) (k : A -> M B) (st : state) :
  bind (ret a) k st = k a st.
Proof. reflexivity. Qed.

Lemma rb_search_run (w : world) (q : query) (st : state) :
  rb_search w q st = (search w q, after st [RadioBrowserSearch q]).
Proof. reflexivity. Qed.

Ltac run_logs :=
  unfold LOG_info, LOG_debug, LOG_exception;
  repeat (rewrite bind_emit || rewrite bind_ret || rewrite after_after);
  simpl app.

Section Resolvers.

Context (w : world).

(** The station resolver up to its search, the client loaded. *)
Lemma match_station_name_body_search
    (self : string -> M (option match_tuple)) (phrase : string)
    (results : list station) (st : state) :
  RadioBrowser w = None ->
  search w (ByName phrase) = Return results ->
  match_station_name_body w self phrase st =
  (let st' := after st [RadioBrowserNew;
                        LogInfo ("Searching for " +:+ phrase);
                        RadioBrowserSearch (ByName phrase)] in
   match results with
   | first :: _ =>
       (Return (Some (phrase, EXACT, {["url" := url_resolved first]})),
        after st' [LogInfo ("Found " +:+ name first +:+ " (" +:+
                            url_resolved first +:+ ")")])
   | [] =>
       (if Py.search_digit_run phrase
        then
          let num := Py.findall_digits phrase in
          phrase <-
            for_each num phrase
              (fun phrase number =>
                 words <- lift (number_to_words w number) ;;
                 str_replace phrase (PyList num) words) ;;
          self phrase ;;
          ret None
        else if Py.search_number_word phrase
        then
          let num := Py.findall_number_words phrase in
          phrase <-
            for_each num phrase
              (fun phrase number =>
                 n <- lift (word_to_num w number) ;;
                 str_replace phrase (PyStr number) (Py.str n)) ;;
          self phrase ;;
          ret None
        else ret None) st'
   end).
Proof.
  intros Hrb Hs. unfold match_station_name_body.
  rewrite (bind_step _ _ _ _ _ (new_RadioBrowser_loaded w st Hrb)).
  run_logs. unfold local. rewrite bind_ret.
  erewrite bind_step by (rewrite rb_search_run, Hs; reflexivity).
  unfold json_roundtrip. rewrite after_after. simpl app.
  destruct results as [|first rest]; [reflexivity|].
  run_logs. reflexivity.
Qed.

Lemma match_station_name_found (phrase : string) (first : station)
    (rest : list station) (st : state) :
  RadioBrowser w = None ->
  search w (ByName phrase) = Return (first :: rest) ->
  match_station_name w phrase st =
  (Return (Some (phrase, EXACT, {["url" := url_resolved first]})),
   after st [RadioBrowserNew;
             LogInfo ("Searching for " +:+ phrase);
             RadioBrowserSearch (ByName phrase);
             LogInfo ("Found " +:+ name first +:+ " (" +:+
                      url_resolved first +:+ ")")]).
Proof.
  intros Hrb Hs. rewrite match_station_name_unfold.
  rewrite (match_station_name_body_search _ _ _ _ Hrb Hs).
  simpl. now rewrite after_after.
Qed.

(** The genre resolver up to its search, the client loaded. *)
Lemma match_genre_search (phrase : string) (results : list station)
    (st : state) :
  RadioBrowser w = None ->
  search w (ByTag (stripped_phrase phrase) "votes") = Return results ->
  match_genre w phrase st =
  (let st' := after st [RadioBrowserNew;
                        LogInfo ("Searching for a " +:+ stripped_phrase phrase
                                 +:+ " station");
                        RadioBrowserSearch
                          (ByTag (stripped_phrase phrase) "votes")] in
   match results with
   | first :: _ =>
       (Return (Some (phrase, EXACT, {["url" := url_resolved first]})),
        after st' [LogInfo ("Found " +:+ name first +:+ " (" +:+
                            url_resolved first +:+ ")")])
   | [] => (match_station_name w phrase ;; ret None) st'
   end).
Proof.
  intros Hrb Hs. unfold match_genre. fold (stripped_phrase phrase).
  cbv zeta.
  rewrite (bind_step _ _ _ _ _ (new_RadioBrowser_loaded w st Hrb)).
  run_logs. unfold local. rewrite bind_ret.
  erewrite bind_step by (rewrite rb_search_run, Hs; reflexivity).
  unfold json_roundtrip. rewrite after_after. simpl app.
  destruct results as [|first rest]; [reflexivity|].
  run_logs. reflexivity.
Qed.

End Resolvers.

(** ** The claims on the resolvers *)

(** C1.  Whenever the search by name returns a non-empty list,
    [match_station_name] returns the phrase, the exact level and a
    dictionary with the resolved URL of the first result under ["url"];
    and whatever tuple it returns, in any world, carries the exact
    level. *)
Theorem match_station_name_first_result (w : world) (phrase : string)
    (st : state) :
  (forall first rest,
     RadioBrowser w = None ->
     search w (ByName phrase) = Return (first :: rest) ->
     fst (match_station_name w phrase st) =
     Return (Some (phrase, EXACT, {["url" := url_resolved first]}))) /\
  (forall p level data,
     fst (match_station_name w phrase st) = Return (Some (p, level, data)) ->
     level = EXACT).
Proof.
  split.
  - intros first rest Hrb Hs.
    now rewrite (match_station_name_found w phrase first rest st Hrb Hs).
  - intros p level data H. rewrite match_station_name_unfold in H.
    apply match_station_name_body_tuple in H.
    destruct H as (first & rest & _ & H). congruence.
Qed.

Lemma match_station_name_first_result_witness :
  RadioBrowser Sample.home = None /\
  search Sample.home (ByName "bbc radio 1") = Return [Sample.bbc_one] /\
  fst (match_station_name Sample.home "bbc radio 1" Sample.quiet) =
  Return (Some ("bbc radio 1", EXACT,
                {["url" := "http://stream.example/bbc1"]})) /\
  (forall p level data,
     fst (match_station_name Sample.home "bbc radio 1" Sample.quiet) =
     Return (Some (p, level, data)) -> level = EXACT).
Proof.
  split; [reflexivity|]. split; [reflexivity|].
  pose proof (match_station_name_first_result
                Sample.home "bbc radio 1" Sample.quiet) as [H1 H2].
  split; [|exact H2].
  apply (H1 Sample.bbc_one []); reflexivity.
Defined.

(** C2 as stated fails: a phrase that is not empty and lacks [" station"]
    goes to the Station Resolver; here not a single search by tag is
    made. *)
Lemma CPS_route_nonempty_counterexample :
  "bbc radio 1" <> EmptyString /\
  CPS_route "bbc radio 1" = StationResolver /\
  trace (snd (CPS_match_query_phrase Sample.home "bbc radio 1" Sample.quiet)) =
  [RadioBrowserNew;
   LogInfo "Searching for bbc radio 1";
   RadioBrowserSearch (ByName "bbc radio 1");
   LogInfo "Found BBC Radio 1 (http://stream.example/bbc1)"].
Proof. split; [discriminate|]. split; reflexivity. Qed.

(** C2, amended.  The test [if "a " and " station" in search_phrase]
    comes down to [" station" in search_phrase]: the match operation
    takes the Genre Resolver, on the lower-cased phrase, exactly when the
    lower-cased phrase contains [" station"], and the Station Resolver,
    on the phrase as given, otherwise; whether the phrase contains
    ["a "] plays no part. *)
Theorem CPS_match_query_phrase_route (w : world) (phrase : string) :
  CPS_route phrase =
  (if Py.contains " station" (Py.lower phrase)
   then GenreResolver else StationResolver) /\
  CPS_match_query_phrase w phrase =
  (if Py.contains " station" (Py.lower phrase)
   then match_genre w (Py.lower phrase)
   else match_station_name w phrase).
Proof.
  unfold CPS_match_query_phrase, CPS_route. cbv zeta.
  change (Py.truthy "a ") with true. rewrite andb_true_l.
  now destruct (Py.contains " station" (Py.lower phrase)).
Qed.

(** C3.  At the failing input: the directory has nothing for
    ["bbc 1 live"], which has a digit run between spaces; the comment of
    the branch has the digits replaced by words and the search repeated,
    but the call ends at the first [replace], which is given the list
    [num] where the word branch gives [number]: no retry is made and
    nothing is returned, not [None] either. *)
Lemma digit_fallback_failing_input :
  RadioBrowser Sample.home = None /\
  search Sample.home (ByName "bbc 1 live") = Return [] /\
  Py.search_digit_run "bbc 1 live" = true /\
  match_station_name Sample.home "bbc 1 live" Sample.quiet =
  (Raise (TypeError "replace() argument 1 must be str, not list"),
   after Sample.quiet [RadioBrowserNew;
                       LogInfo "Searching for bbc 1 live";
                       RadioBrowserSearch (ByName "bbc 1 live")]) /\
  fst (match_station_name Sample.home "bbc 1 live" Sample.quiet) <> Return None.
Proof. repeat (split; [reflexivity|]). discriminate. Qed.

(** The same on every input of the digit fallback.  When the search by
    name returns no result and the phrase has a digit run between spaces,
    the first pass of the loop hands the list of digit runs, not a run, to
    [replace]: the call raises the type error of that [replace] (or what
    the conversion of the first run to words raised), after one search
    and before any retry. *)
Theorem match_station_name_digit_fallback (w : world) (phrase : string)
    (st : state) :
  RadioBrowser w = None ->
  search w (ByName phrase) = Return [] ->
  Py.search_digit_run phrase = true ->
  exists number rest,
    Py.findall_digits phrase = number :: rest /\
    match_station_name w phrase st =
    (Raise match number_to_words w number with
           | Return _ => TypeError "replace() argument 1 must be str, not list"
           | Raise e => e
           end,
     after st [RadioBrowserNew;
               LogInfo ("Searching for " +:+ phrase);
               RadioBrowserSearch (ByName phrase)]).
Proof.
  intros Hrb Hs Hd. pose proof (PyFacts.search_digit_run_found _ Hd) as Hne.
  destruct (Py.findall_digits phrase) as [|number rest] eqn:Hf; [congruence|].
  exists number, rest. split; [reflexivity|].
  rewrite match_station_name_unfold.
  rewrite (match_station_name_body_search _ _ _ _ _ Hrb Hs).
  cbv zeta. rewrite Hd, Hf.
  erewrite bind_fail by apply digit_loop_raises. reflexivity.
Qed.

Lemma match_station_name_digit_fallback_witness :
  RadioBrowser Sample.home = None /\
  search Sample.home (ByName "radio 2 extra") = Return [] /\
  Py.search_digit_run "radio 2 extra" = true /\
  exists number rest,
    Py.findall_digits "radio 2 extra" = number :: rest /\
    match_station_name Sample.home "radio 2 extra" Sample.quiet =
    (Raise match number_to_words Sample.home number with
           | Return _ => TypeError "replace() argument 1 must be str, not list"
           | Raise e => e
           end,
     after Sample.quiet [RadioBrowserNew;
                         LogInfo ("Searching for " +:+ "radio 2 extra");
                         RadioBrowserSearch (ByName "radio 2 extra")]).
Proof.
  repeat (split; [reflexivity|]).
  apply (match_station_name_digit_fallback Sample.home "radio 2 extra"
           Sample.quiet); reflexivity.
Defined.

(** The word fallback does reach its retry, and drops what the retry
    found: ["bbc radio one"] becomes ["bbc radio 1"], which the
    directory knows. *)
Example word_fallback_discards :
  match_station_name Sample.home "bbc radio one" Sample.quiet =
  (Return None,
   after Sample.quiet
     [RadioBrowserNew;
      LogInfo "Searching for bbc radio one";
      RadioBrowserSearch (ByName "bbc radio one");
      RadioBrowserNew;
      LogInfo "Searching for bbc radio 1";
      RadioBrowserSearch (ByName "bbc radio 1");
      LogInfo "Found BBC Radio 1 (http://stream.example/bbc1)"]).
Proof. reflexivity. Qed.




(** C5.  When the search by tag returns no result, [match_genre] calls
    [match_station_name] on the phrase it was given, not on the stripped
    one, and throws its value away: it returns [None] whenever that call
    returns, also when the call returned a tuple, and raises what the
    call raised; in no case does it yield a match. *)
Theorem match_genre_fallback_discarded (w : world) (phrase : string)
    (st : state) :
  RadioBrowser w = None ->
  search w (ByTag (stripped_phrase phrase) "votes") = Return [] ->
  let st' :=
    after st [RadioBrowserNew;
              LogInfo ("Searching for a " +:+ stripped_phrase phrase
                       +:+ " station");
              RadioBrowserSearch (ByTag (stripped_phrase phrase) "votes")] in
  match_genre w phrase st =
  (discarded (fst (match_station_name w phrase st')),
   snd (match_station_name w phrase st')) /\
  is_match (fst (match_genre w phrase st)) = false.
Proof.
  intros Hrb Hs st'.
  assert (H : match_genre w phrase st =
              (discarded (fst (match_station_name w phrase st')),
               snd (match_station_name w phrase st'))).
  { rewrite (match_genre_search w phrase [] st Hrb Hs). cbv zeta.
    fold st'. unfold bind.
    now destruct (match_station_name w phrase st') as [[r|e] st'']. }
  split; [exact H|]. rewrite H. simpl.
  now destruct (fst (match_station_name w phrase st')).
Qed.

Lemma match_genre_fallback_discarded_witness :
  RadioBrowser Sample.home = None /\
  search Sample.home (ByTag (stripped_phrase "smooth station") "votes")
  = Return [] /\
  is_match (fst (match_station_name Sample.home "smooth station"
                   (after Sample.quiet
                      [RadioBrowserNew;
                       LogInfo "Searching for a smooth station";
                       RadioBrowserSearch (ByTag "smooth" "votes")]))) = true /\
  fst (match_genre Sample.home "smooth station" Sample.quiet) = Return None /\
  is_match (fst (match_genre Sample.home "smooth station" Sample.quiet)) = false.
Proof.
  repeat (split; [reflexivity|]).
  apply (match_genre_fallback_discarded Sample.home "smooth station"
           Sample.quiet); reflexivity.
Defined.

(** C6.  When [RadioBrowser()] raises an exception (an instance of
    [Exception], what the handler catches), both resolvers log it and go
    on: they log the search and then fail on the local [rb], which was
    never assigned; the call ends with that error, not with [None], and
    no search is made. *)
Theorem client_failure_unbound_local (w : world) (e : exn) (phrase : string)
    (st : state) :
  RadioBrowser w = Some e ->
  is_Exception e = true ->
  match_station_name w phrase st =
  (Raise (UnboundLocalError "rb"),
   after st [RadioBrowserNew;
             LogException ("Failed to load pyradios" +:+ repr e);
             LogInfo ("Searching for " +:+ phrase)]) /\
  match_genre w phrase st =
  (Raise (UnboundLocalError "rb"),
   after st [RadioBrowserNew;
             LogException ("Failed to load pyradios" +:+ repr e);
             LogInfo ("Searching for a " +:+ stripped_phrase phrase
                      +:+ " station")]).
Proof.
  intros Hrb He. split.
  - rewrite match_station_name_unfold. unfold match_station_name_body.
    rewrite (bind_step _ _ _ _ _ (new_RadioBrowser_caught w e st Hrb He)).
    run_logs. reflexivity.
  - unfold match_genre. fold (stripped_phrase phrase). cbv zeta.
    rewrite (bind_step _ _ _ _ _ (new_RadioBrowser_caught w e st Hrb He)).
    run_logs. reflexivity.
Qed.

Lemma client_failure_unbound_local_witness :
  fst (match_station_name Sample.offline "bbc radio 1" Sample.quiet) =
  Raise (UnboundLocalError "rb") /\
  fst (match_genre Sample.offline "a jazz station" Sample.quiet) =
  Raise (UnboundLocalError "rb").
Proof.
  pose proof (client_failure_unbound_local Sample.offline _ "bbc radio 1"
                Sample.quiet eq_refl eq_refl) as [H1 _].
  pose proof (client_failure_unbound_local Sample.offline _ "a jazz station"
                Sample.quiet eq_refl eq_refl) as [_ H2].
  rewrite H1, H2. split; reflexivity.
Defined.

(** ** Facts about the scan of the daemon's answer *)

Lemma int_acc_nonneg (acc : Z) (s : string) :
  0 <= acc -> 0 <= Py.int_acc acc s.
Proof.
  revert acc. induction s as [|c s IH]; intros acc H; simpl; [assumption|].
  apply IH. lia.
Qed.

Lemma int_nonneg (s : string) : 0 <= Py.int s.
Proof. apply int_acc_nonneg. lia. Qed.

Lemma index_of_line_nonneg (line : string) (i : Z) :
  index_of_line line = Some i -> 0 <= i.
Proof.
  unfold index_of_line. destruct (Py.contains "index" line); [|discriminate].
  destruct (Py.findall_index line) as [|d ds]; [discriminate|].
  intros [= <-]. apply int_nonneg.
Qed.

Lemma scan_line_index (index_id i : Z) (line : string) (st : state) :
  index_of_line line = Some i ->
  scan_line index_id line st = (Return (i, vlc_line line), st).
Proof.
  intros H. pose proof (index_of_line_nonneg _ _ H) as Hi.
  unfold index_of_line in H. unfold scan_line, vlc_line.
  destruct (Py.contains "index" line); [|discriminate].
  destruct (Py.findall_index line) as [|d ds]; [discriminate|].
  injection H as H. rewrite bind_ret, H.
  assert (Hgt : (i >? -1) = true) by lia. rewrite Hgt, andb_true_l.
  now destruct (Py.contains "application.name" line && Py.contains "VLC" line).
Qed.

Lemma scan_line_property (i : Z) (line : string) (st : state) :
  0 <= i -> property_line line = true ->
  scan_line i line st = (Return (i, vlc_line line), st).
Proof.
  intros Hi H. unfold property_line in H. apply andb_true_iff in H.
  destruct H as [_ H]. apply negb_true_iff in H.
  unfold scan_line, vlc_line. rewrite H, bind_ret.
  assert (Hgt : (i >? -1) = true) by lia. rewrite Hgt, andb_true_l.
  now destruct (Py.contains "application.name" line && Py.contains "VLC" line).
Qed.

Lemma scan_line_empty (i : Z) (st : state) :
  scan_line i EmptyString st = (Return (i, false), st).
Proof.
  unfold scan_line, bind, ret. cbn.
  now destruct (i >? -1).
Qed.

Section Scan.

Context (w : world).

Lemma sink_input_loop_cons (next : string) (pending : list string)
    (v i : Z) (line : string) (st : state) :
  Py.truthy line = true ->
  sink_input_loop w (next :: pending) v i line st =
  (r <- scan_line i next ;;
   match r with
   | (index_id, true) => ret index_id
   | (index_id, false) => sink_input_loop w pending v index_id next
   end) st.
Proof. intros H. simpl. now rewrite H. Qed.

(** The loop looks at the line it holds only to see whether it is
    empty. *)
Lemma sink_input_loop_line (pending : list string) (v i : Z)
    (line line' : string) (st : state) :
  Py.truthy line = Py.truthy line' ->
  sink_input_loop w pending v i line st =
  sink_input_loop w pending v i line' st.
Proof. intros H. destruct pending; simpl; now rewrite H. Qed.

(** Over property lines, an index being held: the loop returns that
    index at the first VLC line, or goes through them all. *)
Lemma sink_input_loop_properties (properties rest : list string)
    (v i : Z) (line : string) (st : state) :
  0 <= i -> Py.truthy line = true ->
  forallb property_line properties = true ->
  if existsb vlc_line properties
  then sink_input_loop w (properties ++ rest) v i line st = (Return i, st)
  else exists line',
         Py.truthy line' = true /\
         sink_input_loop w (properties ++ rest) v i line st =
         sink_input_loop w rest v i line' st.
Proof.
  intros Hi. revert line.
  induction properties as [|p properties IH]; intros line Hl Hp.
  - simpl. now exists line.
  - simpl in Hp. apply andb_true_iff in Hp. destruct Hp as [Hp Hps].
    simpl app. rewrite sink_input_loop_cons by assumption.
    rewrite (bind_step _ _ _ _ _ (scan_line_property i p st Hi Hp)).
    simpl existsb. destruct (vlc_line p); [reflexivity|]. simpl orb.
    apply IH; [|assumption].
    unfold property_line in Hp. apply andb_true_iff in Hp. tauto.
Qed.

(** Over a sink block: the loop returns the index of the block at its
    first VLC line, or goes through the block and holds its index. *)
Lemma sink_input_loop_block (block rest : list string) (v i j : Z)
    (line : string) (st : state) :
  Py.truthy line = true ->
  sink_block j block = true ->
  if block_has_vlc block
  then sink_input_loop w (block ++ rest) v i line st = (Return j, st)
  else exists line',
         Py.truthy line' = true /\
         sink_input_loop w (block ++ rest) v i line st =
         sink_input_loop w rest v j line' st.
Proof.
  intros Hl Hb. destruct block as [|l properties]; [discriminate|].
  simpl in Hb. destruct (index_of_line l) as [k|] eqn:Hk; [|discriminate].
  apply andb_true_iff in Hb. destruct Hb as [Hkj Hps].
  apply Z.eqb_eq in Hkj. subst k.
  pose proof (index_of_line_nonneg _ _ Hk) as Hj.
  simpl app. rewrite sink_input_loop_cons by assumption.
  rewrite (bind_step _ _ _ _ _ (scan_line_index i j l st Hk)).
  unfold block_has_vlc. simpl existsb.
  destruct (vlc_line l); [reflexivity|]. simpl orb.
  apply sink_input_loop_properties; [assumption| |assumption].
  unfold index_of_line in Hk. destruct l; [discriminate | reflexivity].
Qed.

(** At the end of the answer the loop is left with nothing found,
    whether the stream ends or the read times out. *)
Lemma sink_input_loop_end (v i : Z) (line : string) (st : state) :
  try_except (sink_input_loop w [] v i line) is_socket_timeout
    (fun _ => ret v) st = (Return v, st).
Proof.
  unfold try_except. simpl. destruct (Py.truthy line); [|reflexivity].
  destruct (cli_end w); [|reflexivity].
  now rewrite (bind_step _ _ _ _ _ (scan_line_empty i st)).
Qed.

Lemma try_except_Return {A} (body : M A) (class : exn -> bool)
    (handler : exn -> M A) (st st' : state) (a : A) :
  body st = (Return a, st') ->
  try_except body class handler st = (Return a, st').
Proof. intros H. unfold try_except. now rewrite H. Qed.

Lemma try_except_ext {A} (body body' : M A) (class : exn -> bool)
    (handler : exn -> M A) (st : state) :
  body st = body' st ->
  try_except body class handler st = try_except body' class handler st.
Proof. intros H. unfold try_except. now rewrite H. Qed.

(** [find_vlc] from the first line it reads. *)
Lemma find_vlc_run (first : string) (pending : list string) (v : Z)
    (st : state) :
  connect_to_cli w = None ->
  cli_reply w list_sink_inputs = first :: pending ->
  (forall st', try_except (sink_input_loop w pending (-1) (-1) first)
                 is_socket_timeout (fun _ => ret (-1)) st' = (Return v, st')) ->
  find_vlc w st =
  (Return v,
   after st [CliConnect; CliWrite list_sink_inputs; CliClose;
             LogDebug ("vlc sink: " +:+ Py.str v)]).
Proof.
  intros Hc Hr Hloop. unfold find_vlc. rewrite Hc, Hr. cbv zeta.
  unfold construct, readline. run_logs.
  erewrite bind_step by apply Hloop.
  run_logs. reflexivity.
Qed.

End Scan.

(** ** The claims on the volume sideband and the playback bridge *)

(** C7 as stated fails: when the two sink blocks come first in the
    answer, the index line of the first block is the line that is read
    and dropped before the loop, and the VLC block is not found. *)
Lemma find_vlc_two_blocks_counterexample :
  sink_block 5 Sample.vlc_5 = true /\
  sink_block 9 Sample.mpv_9 = true /\
  block_has_vlc Sample.vlc_5 = true /\
  block_has_vlc Sample.mpv_9 = false /\
  fst (find_vlc (with_reply Sample.home (Sample.vlc_5 ++ Sample.mpv_9))
         Sample.quiet) = Return (-1) /\
  fst (find_vlc (with_reply Sample.home (Sample.vlc_5 ++ Sample.mpv_9))
         Sample.quiet) <> Return 5.
Proof. repeat (split; [reflexivity|]). discriminate. Qed.

(** C7, amended.  For an answer made of a first line (the daemon's
    count line) and then two sink blocks, each an index line followed by
    lines that do not mention an index: when exactly one block has an
    [application.name] line containing [VLC], [find_vlc] returns the
    index of that block; when neither has, it returns -1. *)
Theorem find_vlc_two_sink_blocks (w : world) (st : state) (header : string)
    (block1 block2 : list string) (i1 i2 : Z) :
  connect_to_cli w = None ->
  cli_reply w list_sink_inputs = header :: block1 ++ block2 ->
  Py.truthy header = true ->
  sink_block i1 block1 = true ->
  sink_block i2 block2 = true ->
  (block_has_vlc block1 = true -> block_has_vlc block2 = false ->
   fst (find_vlc w st) = Return i1) /\
  (block_has_vlc block1 = false -> block_has_vlc block2 = true ->
   fst (find_vlc w st) = Return i2) /\
  (block_has_vlc block1 = false -> block_has_vlc block2 = false ->
   fst (find_vlc w st) = Return (-1)).
Proof.
  intros Hc Hr Hh Hb1 Hb2.
  assert (Hrun : forall v,
    (forall st', try_except
                   (sink_input_loop w (block1 ++ block2) (-1) (-1) header)
                   is_socket_timeout (fun _ => ret (-1)) st' = (Return v, st')) ->
    fst (find_vlc w st) = Return v).
  { intros v Hv. now rewrite (find_vlc_run w header _ v st Hc Hr Hv). }
  repeat split; intros Hv1 Hv2; apply Hrun; intros st'.
  - pose proof (sink_input_loop_block w block1 block2 (-1) (-1) i1 header st'
                  Hh Hb1) as H1.
    rewrite Hv1 in H1. now apply try_except_Return.
  - pose proof (sink_input_loop_block w block1 block2 (-1) (-1) i1 header st'
                  Hh Hb1) as H1.
    rewrite Hv1 in H1. destruct H1 as (line1 & Hl1 & H1).
    pose proof (sink_input_loop_block w block2 [] (-1) i1 i2 line1 st'
                  Hl1 Hb2) as H2.
    rewrite Hv2, app_nil_r in H2. apply try_except_Return. congruence.
  - pose proof (sink_input_loop_block w block1 block2 (-1) (-1) i1 header st'
                  Hh Hb1) as H1.
    rewrite Hv1 in H1. destruct H1 as (line1 & Hl1 & H1).
    pose proof (sink_input_loop_block w block2 [] (-1) i1 i2 line1 st'
                  Hl1 Hb2) as H2.
    rewrite Hv2, app_nil_r in H2. destruct H2 as (line2 & Hl2 & H2).
    rewrite (try_except_ext _ (sink_input_loop w [] (-1) i2 line2))
      by congruence.
    apply sink_input_loop_end.
Qed.

Lemma find_vlc_two_sink_blocks_witness :
  fst (find_vlc Sample.home Sample.quiet) = Return 7 /\
  fst (find_vlc (with_reply Sample.home
                   (Sample.count_line :: Sample.vlc_5 ++ Sample.mpv_9))
         Sample.quiet) = Return 5 /\
  fst (find_vlc (with_reply Sample.home
                   (Sample.count_line :: Sample.mpv_3 ++ Sample.mpv_9))
         Sample.quiet) = Return (-1).
Proof.
  split; [|split].
  - apply (find_vlc_two_sink_blocks Sample.home Sample.quiet Sample.count_line
             Sample.mpv_3 Sample.vlc_7 3 7); reflexivity.
  - apply (find_vlc_two_sink_blocks
             (with_reply Sample.home
                (Sample.count_line :: Sample.vlc_5 ++ Sample.mpv_9))
             Sample.quiet Sample.count_line
             Sample.vlc_5 Sample.mpv_9 5 9); reflexivity.
  - apply (find_vlc_two_sink_blocks
             (with_reply Sample.home
                (Sample.count_line :: Sample.mpv_3 ++ Sample.mpv_9))
             Sample.quiet Sample.count_line
             Sample.mpv_3 Sample.mpv_9 3 9); reflexivity.
Defined.

(** A property line that mentions an index without carrying the field
    stops the scan with an error: the blocks of C7 have no such line. *)
Example find_vlc_index_in_property :
  fst (find_vlc
         (with_reply Sample.home
            [Sample.count_line;
             Sample.index_line 5;
             "        media.name = 'index'" +:+ newline;
             Sample.name_line "VLC media player"])
         Sample.quiet) = Raise IndexError.
Proof. reflexivity. Qed.

(** C10.  [find_vlc] reads a first line and never looks into it: two
    answers that differ in their first line only give the same result.
    So when the index line of a VLC block is the very first line, its
    index is not parsed: with one VLC block (index 5) and an [mpv]
    block the result is -1, and with two VLC blocks (5, then 9) it is
    the index of the second. *)
Theorem find_vlc_drops_first_line :
  (forall w first first' rest st,
     Py.truthy first = true -> Py.truthy first' = true ->
     find_vlc (with_reply w (first :: rest)) st =
     find_vlc (with_reply w (first' :: rest)) st) /\
  (index_of_line (Sample.index_line 5) = Some 5 /\
   block_has_vlc Sample.vlc_5 = true /\
   fst (find_vlc (with_reply Sample.home
                    (Sample.index_line 5
                       :: Sample.name_line "VLC media player"
                       :: Sample.mpv_9))
          Sample.quiet) = Return (-1)) /\
  fst (find_vlc (with_reply Sample.home
                   (Sample.index_line 5
                      :: Sample.name_line "VLC media player"
                      :: Sample.vlc_9))
         Sample.quiet) = Return 9.
Proof.
  split; [|split; [repeat split|reflexivity]].
  intros w first first' rest st H H'. unfold find_vlc. simpl.
  apply bind_ext; intros _ st1 _.
  apply bind_ext; intros _ st2 _.
  apply bind_ext; intros _ st3 _.
  rewrite !bind_ret.
  unfold bind, try_except.
  rewrite (sink_input_loop_line _ rest (-1) (-1) first first' st3)
    by congruence.
  reflexivity.
Qed.

Lemma find_vlc_drops_first_line_witness :
  find_vlc (with_reply Sample.home (Sample.count_line :: Sample.vlc_5)) Sample.quiet =
  find_vlc (with_reply Sample.home (Sample.index_line 3 :: Sample.vlc_5)) Sample.quiet.
Proof.
  apply (proj1 find_vlc_drops_first_line); reflexivity.
Defined.

(** [set_volume] on a sink input the daemon has. *)
Lemma set_volume_run (w : world) (sink_input : Z) (vol : option float)
    (prior : PulseVolumeInfo) (st : state) :
  Pulse w = None ->
  sink_inputs st !! sink_input = Some prior ->
  let written := set_value_flat (default vol_default vol) prior in
  set_volume w sink_input vol st =
  (Return tt,
   {| is_playing := is_playing st;
      sink_inputs := <[sink_input := written]> (sink_inputs st);
      trace := trace st ++ [PulseConnect "radio-skill-pulse-client";
                            PulseVolumeSet sink_input written;
                            PulseClose] |}).
Proof.
  intros Hp Hs written. unfold set_volume. rewrite Hp. cbv zeta.
  unfold construct. run_logs.
  assert (Hinfo : pulse_sink_input_info sink_input
                    (after st [PulseConnect "radio-skill-pulse-client"]) =
                  (Return {| index := sink_input; volume := prior |},
                   after st [PulseConnect "radio-skill-pulse-client"])).
  { unfold pulse_sink_input_info. simpl. now rewrite Hs. }
  rewrite (bind_step _ _ _ _ _ Hinfo).
  unfold bind, pulse_volume_set, emit, after. simpl.
  subst written. now rewrite <- !app_assoc.
Qed.

(** Logging the URL and [CPS_play]. *)
Lemma log_and_CPS_play {B} (url : string) (k : unit -> M B) (st : state) :
  (LOG_info ("Playing from " +:+ url) ;; x <- CPS_play url ;; k x) st =
  k tt (started st url).
Proof.
  unfold LOG_info, CPS_play, bind, emit, audioservice_play, after, started.
  simpl. now rewrite <- !app_assoc.
Qed.

(** [handle_intent] as far as its call of [set_volume]. *)
Lemma handle_intent_run (w : world) (message_data : gmap string string)
    (type utterance : string) (t : match_tuple) (url : string) (vlc : Z)
    (st st1 st2 : state) :
  message_data !! type = Some utterance ->
  match_station_name w utterance st = (Return (Some t), st1) ->
  t.2 !! "url" = Some url ->
  find_vlc w (started st1 url) = (Return vlc, st2) ->
  handle_intent w message_data type st =
  set_volume w vlc (Some 0.6%float)
    (after st2 [LogInfo "setting volume for VLC to 0.6"]).
Proof.
  intros Hm Hs Hu Hv. unfold handle_intent, getitem. rewrite Hm, bind_ret.
  rewrite (bind_step _ _ _ _ _ Hs).
  destruct t as [[p level] data]. simpl in Hu.
  unfold matched_url, getitem. rewrite Hu, bind_ret.
  assert (Hplay :
    forall {B} (k : unit -> M B),
      (LOG_info ("Playing from " +:+ url) ;;
       url0 <- ret url ;; x <- CPS_play url0 ;; k x) st1 =
      k tt (started st1 url)).
  { intros B k. rewrite <- (log_and_CPS_play url k st1). reflexivity. }
  rewrite Hplay. rewrite (bind_step _ _ _ _ _ Hv). run_logs. reflexivity.
Qed.

Lemma value_flat_equal_channels (n : nat) :
  (1 <= n <= 9)%nat ->
  value_flat {| values := repeat 0.6%float n |} = 0.6%float.
Proof.
  intros H. do 10 (destruct n as [|n]; [try lia; reflexivity|]). lia.
Qed.

(** C8 as stated fails: for a stream of ten channels the write request
    gives every channel 0.6, and the flattened scalar of that
    descriptor, the mean of its channels, is not 0.6. *)
Lemma set_volume_ten_channels_counterexample :
  Pulse Sample.home = None /\
  sink_inputs Sample.cinema !! 7 = Some Sample.surround /\
  fst (set_volume Sample.home 7 (Some 0.6%float) Sample.cinema) = Return tt /\
  trace (snd (set_volume Sample.home 7 (Some 0.6%float) Sample.cinema)) =
  [PulseConnect "radio-skill-pulse-client";
   PulseVolumeSet 7 {| values := repeat 0.6%float 10 |};
   PulseClose] /\
  value_flat {| values := repeat 0.6%float 10 |} <> 0.6%float.
Proof.
  repeat (split; [reflexivity|]).
  intros H.
  apply (f_equal (fun x => PrimFloat.Leibniz.eqb x 0.6%float)) in H.
  vm_compute in H. discriminate.
Qed.

(** C8, amended.  For a sink input the daemon has, whatever its volume
    was, [set_volume(id, 0.6)] sends one write request for that sink
    input, with a descriptor every channel of which is 0.6; its
    flattened scalar is 0.6 when it has from one to nine channels; and
    that descriptor is the volume the daemon then holds.  A call without
    [vol] is a call at 0.5; and the intent handler calls [set_volume] at
    0.6 on the sink input that [find_vlc] returned. *)
Theorem set_volume_writes_target (w : world) (st : state) :
  (forall sink_input prior,
     Pulse w = None ->
     sink_inputs st !! sink_input = Some prior ->
     exists written st',
       set_volume w sink_input (Some 0.6%float) st = (Return tt, st') /\
       trace st' = trace st ++ [PulseConnect "radio-skill-pulse-client";
                                PulseVolumeSet sink_input written;
                                PulseClose] /\
       values written = repeat 0.6%float (channels prior) /\
       ((1 <= channels prior <= 9)%nat -> value_flat written = 0.6%float) /\
       sink_inputs st' !! sink_input = Some written) /\
  (forall sink_input,
     set_volume w sink_input None st =
     set_volume w sink_input (Some 0.5%float) st) /\
  (forall message_data type utterance t url vlc st1 st2,
     message_data !! type = Some utterance ->
     match_station_name w utterance st = (Return (Some t), st1) ->
     t.2 !! "url" = Some url ->
     find_vlc w (started st1 url) = (Return vlc, st2) ->
     handle_intent w message_data type st =
     set_volume w vlc (Some 0.6%float)
       (after st2 [LogInfo "setting volume for VLC to 0.6"])).
Proof.
  split; [|split].
  - intros sink_input prior Hp Hs.
    eexists _, _. split; [apply (set_volume_run w _ _ prior st Hp Hs)|].
    simpl. split; [reflexivity|]. split; [reflexivity|].
    split; [|apply lookup_insert_eq].
    intros Hn. unfold set_value_flat. now apply value_flat_equal_channels.
  - reflexivity.
  - intros. eapply handle_intent_run; eassumption.
Qed.

Lemma set_volume_writes_target_witness :
  Pulse Sample.home = None /\
  sink_inputs Sample.quiet !! 7 = Some Sample.loud /\
  exists written st',
    set_volume Sample.home 7 (Some 0.6%float) Sample.quiet = (Return tt, st') /\
    trace st' = [PulseConnect "radio-skill-pulse-client";
                 PulseVolumeSet 7 written;
                 PulseClose] /\
    values written = [0.6%float; 0.6%float] /\
    value_flat written = 0.6%float /\
    sink_inputs st' !! 7 = Some written.
Proof.
  split; [reflexivity|]. split; [reflexivity|].
  destruct (proj1 (set_volume_writes_target Sample.home Sample.quiet)
              7 Sample.loud eq_refl)
    as (written & st' & H1 & H2 & H3 & H4 & H5); [reflexivity|].
  exists written, st'. repeat split; try assumption.
  apply H4. unfold channels. simpl. lia.
Defined.

(** C9.  [CPS_start], given a dictionary with a URL: when the audio
    service reports that it is playing, [stop] is called first; [play]
    is called on the URL in either case, as the last call; so the play
    comes when the player is stopped. *)
Theorem CPS_start_stops_then_plays (phrase : string)
    (data : gmap string string) (url : string) (st : state) :
  data !! "url" = Some url ->
  let calls :=
    (if is_playing st then [AudioStop] else []) ++
    [LogInfo ("Playing from " +:+ url); AudioPlay url] in
  fst (CPS_start phrase data st) = Return tt /\
  trace (snd (CPS_start phrase data st)) = trace st ++ calls /\
  plays_when_stopped (is_playing st) calls = true.
Proof.
  intros Hu calls. subst calls.
  unfold CPS_start, bind, audioservice_is_playing, getitem, audioservice_stop,
    audioservice_play, LOG_info, emit, after, ret.
  rewrite Hu. destruct (is_playing st); simpl; rewrite <- ?app_assoc;
    now repeat split.
Qed.

Lemma CPS_start_stops_then_plays_witness :
  ({["url" := "http://stream.example/jazz"]} : gmap string string) !! "url"
  = Some "http://stream.example/jazz" /\
  fst (CPS_start "jazz" {["url" := "http://stream.example/jazz"]} Sample.busy)
  = Return tt /\
  trace (snd (CPS_start "jazz" {["url" := "http://stream.example/jazz"]}
                Sample.busy)) =
  [AudioStop; LogInfo "Playing from http://stream.example/jazz";
   AudioPlay "http://stream.example/jazz"].
Proof.
  assert (Hu : ({["url" := "http://stream.example/jazz"]}
                 : gmap string string) !! "url"
               = Some "http://stream.example/jazz") by reflexivity.
  split; [exact Hu|].
  destruct (CPS_start_stops_then_plays "jazz"
              {["url" := "http://stream.example/jazz"]}
              "http://stream.example/jazz" Sample.busy Hu)
    as (H1 & H2 & _).
  split; [exact H1 | exact H2].
Defined.

(** * Further properties of the skill *)

(** ** What a computation puts on the trace *)

Lemma emits_only_ret (P : event -> bool) {A} (a : A) : emits_only P (ret a).
Proof. intros st. exists []. simpl. now rewrite app_nil_r. Qed.

Lemma emits_only_raise (P : event -> bool) {A} (e : exn) :
  emits_only P (@raise A e).
Proof. intros st. exists []. simpl. now rewrite app_nil_r. Qed.

Lemma emits_only_lift (P : event -> bool) {A} (o : outcome A) :
  emits_only P (lift o).
Proof. intros st. exists []. simpl. now rewrite app_nil_r. Qed.

Lemma emits_only_emit (P : event -> bool) (e : event) :
  P e = true -> emits_only P (emit e).
Proof. intros H st. exists [e]. simpl. now rewrite H. Qed.

Lemma emits_only_bind (P : event -> bool) {A B} (m : M A) (k : A -> M B) :
  emits_only P m -> (forall a, emits_only P (k a)) -> emits_only P (bind m k).
Proof.
  intros Hm Hk st. unfold bind. destruct (Hm st) as (es & Hes & HP).
  destruct (m st) as [[a|e] st1]; simpl in Hes.
  - destruct (Hk a st1) as (es' & Hes' & HP'). exists (es ++ es').
    rewrite Hes', Hes, forallb_app, HP, HP', app_assoc. now split.
  - now exists es.
Qed.

Lemma emits_only_try_except (P : event -> bool) {A} (body : M A)
    (class : exn -> bool) (handler : exn -> M A) :
  emits_only P body -> (forall e, emits_only P (handler e)) ->
  emits_only P (try_except body class handler).
Proof.
  intros Hb Hh st. unfold try_except. destruct (Hb st) as (es & Hes & HP).
  destruct (body st) as [[a|e] st1]; simpl in Hes.
  - now exists es.
  - destruct (class e); [|now exists es].
    destruct (Hh e st1) as (es' & Hes' & HP'). exists (es ++ es').
    rewrite Hes', Hes, forallb_app, HP, HP', app_assoc. now split.
Qed.

Lemma emits_only_for_each (P : event -> bool) {A S} (l : list A) (s : S)
    (f : S -> A -> M S) :
  (forall s x, emits_only P (f s x)) -> emits_only P (for_each l s f).
Proof.
  intros Hf. revert s. induction l as [|x l IH]; intros s; simpl.
  - apply emits_only_ret.
  - apply emits_only_bind; [apply Hf | intros s'; apply IH].
Qed.

Lemma emits_only_weaken (P Q : event -> bool) {A} (m : M A) :
  (forall e, P e = true -> Q e = true) -> emits_only P m -> emits_only Q m.
Proof.
  intros HPQ Hm st. destruct (Hm st) as (es & Hes & HP).
  exists es. split; [assumption|].
  apply forallb_forall. intros e He.
  apply HPQ. revert e He. now apply forallb_forall.
Qed.

(** An [appends] computation that [emits_only P]: the events it adds
    are allowed by [P]. *)
Lemma appends_emits_only (P : event -> bool) {A} (m : M A) (st : state) :
  appends m -> emits_only P m ->
  exists es, snd (m st) = after st es /\ forallb P es = true.
Proof.
  intros Ha He. destruct (Ha st) as [es Hes].
  destruct (He st) as (es' & Hes' & HP).
  exists es. split; [assumption|].
  rewrite Hes in Hes'. simpl in Hes'. apply app_inv_head in Hes'.
  now subst es'.
Qed.

Ltac emits_steps :=
  repeat match goal with
    | |- emits_only _ (bind _ _) => apply emits_only_bind; [|intros ?]
    | |- emits_only _ (try_except _ _ _) =>
        apply emits_only_try_except; [|intros ?]
    | |- emits_only _ (for_each _ _ _) => apply emits_only_for_each; intros ? ?
    | |- emits_only _ (ret _) => apply emits_only_ret
    | |- emits_only _ (raise _) => apply emits_only_raise
    | |- emits_only _ (lift _) => apply emits_only_lift
    | |- emits_only _ (emit _) => apply emits_only_emit; reflexivity
    | |- emits_only _ (match ?x with _ => _ end) => destruct x
    | |- emits_only _ (if ?b then _ else _) => destruct b
    | |- _ =>
        progress (unfold LOG_info, LOG_debug, LOG_exception, local, construct,
                    str_replace, rb_search, new_RadioBrowser, CPS_play, getitem,
                    matched_url)
    end.

Section ResolverEvents.

Context (w : world).

Lemma emits_only_match_station_name_body
    (self : string -> M (option match_tuple)) (phrase : string) :
  (forall p, emits_only station_event (self p)) ->
  emits_only station_event (match_station_name_body w self phrase).
Proof.
  intros Hself. unfold match_station_name_body, json_roundtrip.
  emits_steps; apply Hself.
Qed.

Lemma emits_only_match_station_name (phrase : string) :
  emits_only station_event (match_station_name w phrase).
Proof.
  unfold match_station_name. generalize (S (Py.letters phrase)) as d.
  intros d. revert phrase. induction d as [|d IH]; intros phrase; simpl.
  - apply emits_only_raise.
  - now apply emits_only_match_station_name_body.
Qed.

Lemma station_event_resolver (e : event) :
  station_event e = true -> resolver_event e = true.
Proof. destruct e as [| | | |[]| | | | | | | | |]; simpl; congruence. Qed.

Lemma emits_only_match_genre (phrase : string) :
  emits_only resolver_event (match_genre w phrase).
Proof.
  unfold match_genre, json_roundtrip. cbv zeta.
  emits_steps.
  apply (emits_only_weaken station_event);
    [apply station_event_resolver | apply emits_only_match_station_name].
Qed.

Lemma appends_match_genre (phrase : string) : appends (match_genre w phrase).
Proof.
  unfold match_genre. cbv zeta.
  apply appends_bind; [apply appends_new_RadioBrowser | intros rb].
  apply appends_bind; [apply appends_emit | intros _].
  apply appends_bind; [apply appends_local | intros _].
  apply appends_bind; [apply appends_rb_search | intros results].
  destruct (json_roundtrip results); [|appends_steps].
  apply appends_bind; [apply appends_match_station_name | intros _].
  apply appends_ret.
Qed.

(** A tuple of the genre resolver comes from its search by tag. *)
Lemma match_genre_tuple (phrase : string) (st : state) (t : match_tuple) :
  fst (match_genre w phrase st) = Return (Some t) ->
  exists first rest,
    search w (ByTag (stripped_phrase phrase) "votes") = Return (first :: rest) /\
    t = (phrase, EXACT, {["url" := url_resolved first]}).
Proof.
  unfold match_genre. fold (stripped_phrase phrase). cbv zeta. intros H.
  apply bind_Return in H. destruct H as (rb & st1 & _ & H).
  apply bind_Return in H. destruct H as (_ & st2 & _ & H).
  apply bind_Return in H. destruct H as (_ & st3 & _ & H).
  apply bind_Return in H. destruct H as (results & st4 & Hs & H).
  assert (Hres : search w (ByTag (stripped_phrase phrase) "votes")
                 = Return results).
  { unfold rb_search, bind, emit, lift in Hs.
    destruct (search w (ByTag (stripped_phrase phrase) "votes"));
      now inversion Hs. }
  unfold json_roundtrip in H. destruct results as [|first rest].
  - apply bind_Return in H. destruct H as (_ & st5 & _ & H). discriminate.
  - apply bind_Return in H. destruct H as (_ & st5 & _ & H).
    simpl in H. injection H as <-. now exists first, rest.
Qed.

(** The loop of the word fallback when every word has a value. *)
Lemma word_loop_run (value : string -> Z) (num : list string)
    (phrase : string) (st : state) :
  Forall (fun number => word_to_num w number = Return (value number)) num ->
  for_each num phrase
    (fun phrase number =>
       n <- lift (word_to_num w number) ;;
       str_replace phrase (PyStr number) (Py.str n)) st =
  (Return (fold_left
             (fun phrase number =>
                Py.replace number (Py.str (value number)) phrase) num phrase),
   st).
Proof.
  intros H. revert phrase. induction H as [|number num Hn _ IH]; intros phrase.
  - reflexivity.
  - simpl. unfold bind at 1 2, lift. rewrite Hn. simpl. apply IH.
Qed.

End ResolverEvents.

Lemma lower_char_idempotent (c : ascii) :
  Py.lower_char (Py.lower_char c) = Py.lower_char c.
Proof. destruct c as [[] [] [] [] [] [] [] []]; reflexivity. Qed.

Lemma lower_idempotent (s : string) : Py.lower (Py.lower s) = Py.lower s.
Proof.
  induction s as [|c s IH]; simpl; [reflexivity|].
  now rewrite lower_char_idempotent, IH.
Qed.

Lemma stripped_phrase_lower (phrase : string) :
  stripped_phrase (Py.lower phrase) = stripped_phrase phrase.
Proof. unfold stripped_phrase. now rewrite lower_idempotent. Qed.

(** [CPS_start] on a dictionary with a URL. *)
Lemma CPS_start_run (phrase : string) (data : gmap string string)
    (url : string) (st : state) :
  data !! "url" = Some url ->
  CPS_start phrase data st =
  (Return tt,
   {| is_playing := true;
      sink_inputs := sink_inputs st;
      trace := trace st ++
               (if is_playing st then [AudioStop] else []) ++
               [LogInfo ("Playing from " +:+ url); AudioPlay url] |}).
Proof.
  intros Hu.
  unfold CPS_start, bind, audioservice_is_playing, getitem, audioservice_stop,
    audioservice_play, LOG_info, emit, after, ret.
  rewrite Hu. destruct (is_playing st); simpl; now rewrite <- ?app_assoc.
Qed.

(** ** The resolvers: absence, failures, retries *)

Lemma count_searches_app (a b : list event) :
  count_searches (a ++ b) = (count_searches a + count_searches b)%nat.
Proof. unfold count_searches. now rewrite List.filter_app, length_app. Qed.

Lemma searches_weaken (a b : nat) {A} (m : M A) (st : state) :
  (a <= b)%nat -> searches_at_most a m st -> searches_at_most b m st.
Proof. intros Hab (es & Hes & Hc). exists es. split; [assumption | lia]. Qed.

Lemma searches_bind (a b : nat) {A B} (m : M A) (k : A -> M B) (st : state) :
  searches_at_most a m st ->
  (forall x st', m st = (Return x, st') -> searches_at_most b (k x) st') ->
  searches_at_most (a + b) (bind m k) st.
Proof.
  intros (es & Hes & Hc) Hk. unfold searches_at_most, bind.
  destruct (m st) as [[x|e] st1] eqn:Hm; simpl in Hes; subst st1.
  - destruct (Hk x _ eq_refl) as (es' & Hes' & Hc'). exists (es ++ es').
    rewrite Hes', after_after, count_searches_app. split; [reflexivity | lia].
  - exists es. split; [reflexivity | lia].
Qed.

Lemma searches_none {A} (m : M A) (st : state) :
  snd (m st) = st -> searches_at_most 0 m st.
Proof. intros H. exists []. rewrite H, after_nil. now split. Qed.

Lemma searches_emit (e : event) (st : state) :
  is_search e = false -> searches_at_most 0 (emit e) st.
Proof.
  intros H. exists [e]. split; [reflexivity|].
  unfold count_searches. simpl. now rewrite H.
Qed.

Lemma for_each_state {A S} (l : list A) (s : S) (f : S -> A -> M S)
    (st : state) :
  (forall s x st, snd (f s x st) = st) -> snd (for_each l s f st) = st.
Proof.
  intros Hf. revert s. induction l as [|x l IH]; intros s; simpl;
    [reflexivity|].
  unfold bind. specialize (Hf s x st).
  destruct (f s x st) as [[s'|e] st']; simpl in Hf; subst st';
    [apply IH | reflexivity].
Qed.

Section Retries.

Context (w : world).

Lemma digit_loop_state (num l : list string) (phrase : string) (st : state) :
  snd (for_each l phrase
         (fun phrase number =>
            words <- lift (number_to_words w number) ;;
            str_replace phrase (PyList num) words) st) = st.
Proof.
  apply for_each_state. intros s x st0. unfold bind, lift.
  now destruct (number_to_words w x).
Qed.

Lemma word_loop_state (l : list string) (phrase : string) (st : state) :
  snd (for_each l phrase
         (fun phrase number =>
            n <- lift (word_to_num w number) ;;
            str_replace phrase (PyStr number) (Py.str n)) st) = st.
Proof.
  apply for_each_state. intros s x st0. unfold bind, lift.
  now destruct (word_to_num w x).
Qed.

Lemma searches_new_RadioBrowser (st : state) :
  searches_at_most 0 (new_RadioBrowser w) st.
Proof.
  unfold new_RadioBrowser, try_except, bind, emit, construct.
  destruct (RadioBrowser w) as [e|]; simpl.
  - destruct (is_Exception e).
    + eexists. unfold LOG_exception, emit. rewrite after_after.
      split; [reflexivity|]. unfold count_searches. simpl. lia.
    + exists [RadioBrowserNew]. now split.
  - exists [RadioBrowserNew]. now split.
Qed.

Lemma searches_rb_search (q : query) (st : state) :
  searches_at_most 1 (rb_search w q) st.
Proof.
  exists [RadioBrowserSearch q]. rewrite rb_search_run. now split.
Qed.

Lemma searches_match_station_name_body
    (self : string -> M (option match_tuple)) (phrase : string) (st : state) :
  (forall p st', (Py.letters p < Py.letters phrase)%nat ->
                 searches_at_most (S (Py.letters p)) (self p) st') ->
  searches_at_most (S (Py.letters phrase))
    (match_station_name_body w self phrase) st.
Proof.
  intros Hself. unfold match_station_name_body.
  apply (searches_bind 0 _); [apply searches_new_RadioBrowser|].
  intros rb st1 _.
  apply (searches_bind 0 _);
    [apply searches_emit; reflexivity|]. intros _ st2 _.
  apply (searches_bind 0 _);
    [apply searches_none; now destruct rb|]. intros _ st3 _.
  apply (searches_bind 1 (Py.letters phrase)); [apply searches_rb_search|].
  intros results st4 _. unfold json_roundtrip.
  destruct results as [|first rest].
  - destruct (Py.search_digit_run phrase) eqn:Hd;
      [|destruct (Py.search_number_word phrase) eqn:Hw].
    + apply PyFacts.search_digit_run_found in Hd.
      destruct (Py.findall_digits phrase) as [|number num] eqn:Hf;
        [congruence|].
      apply (searches_bind 0 (Py.letters phrase));
        [apply searches_none, digit_loop_state|].
      intros phrase' st5 Hloop.
      rewrite digit_loop_raises in Hloop. discriminate.
    + apply PyFacts.search_number_word_found in Hw.
      destruct Hw as (number & num & Hf & Hin & Hc).
      unfold Py.findall_number_words. rewrite Hf.
      apply (searches_bind 0 (Py.letters phrase));
        [apply searches_none, word_loop_state|].
      intros phrase' st5 Hloop.
      apply word_loop_lt in Hloop; [|assumption..].
      apply (searches_weaken (S (Py.letters phrase') + 0)); [lia|].
      apply searches_bind; [now apply Hself|].
      intros _ st6 _. now apply searches_none.
    + apply (searches_weaken 0); [lia|]. now apply searches_none.
  - apply (searches_weaken (0 + 0)); [lia|].
    apply searches_bind; [apply searches_emit; reflexivity|].
    intros _ st5 _. now apply searches_none.
Qed.

Lemma searches_match_station_name_rec (d : nat) (phrase : string)
    (st : state) :
  (Py.letters phrase < d)%nat ->
  searches_at_most (S (Py.letters phrase))
    (match_station_name_rec w d phrase) st.
Proof.
  revert phrase st. induction d as [|d IH]; intros phrase st H; [lia|].
  simpl. apply searches_match_station_name_body.
  intros p st' Hp. apply IH. lia.
Qed.

End Retries.

(** X1.  No result and no fallback pattern: [match_station_name]
    returns [None] after one search, the phrase unchanged. *)
Theorem match_station_name_absent (w : world) (phrase : string) (st : state) :
  RadioBrowser w = None ->
  search w (ByName phrase) = Return [] ->
  Py.search_digit_run phrase = false ->
  Py.search_number_word phrase = false ->
  match_station_name w phrase st =
  (Return None,
   after st [RadioBrowserNew;
             LogInfo ("Searching for " +:+ phrase);
             RadioBrowserSearch (ByName phrase)]).
Proof.
  intros Hrb Hs Hd Hw. rewrite match_station_name_unfold.
  rewrite (match_station_name_body_search _ _ _ _ _ Hrb Hs).
  cbv zeta. now rewrite Hd, Hw.
Qed.

Lemma match_station_name_absent_witness :
  match_station_name Sample.home "unheard fm" Sample.quiet =
  (Return None,
   after Sample.quiet [RadioBrowserNew;
                       LogInfo "Searching for unheard fm";
                       RadioBrowserSearch (ByName "unheard fm")]).
Proof.
  apply (match_station_name_absent Sample.home "unheard fm" Sample.quiet);
    reflexivity.
Defined.

(** X2.  A search that raises is not handled: the handler around the
    constructor does not cover it, and either resolver ends with the
    exception of the search. *)
Theorem search_failure_propagates (w : world) (phrase : string) (e : exn)
    (st : state) :
  RadioBrowser w = None ->
  (search w (ByName phrase) = Raise e ->
   match_station_name w phrase st =
   (Raise e,
    after st [RadioBrowserNew;
              LogInfo ("Searching for " +:+ phrase);
              RadioBrowserSearch (ByName phrase)])) /\
  (search w (ByTag (stripped_phrase phrase) "votes") = Raise e ->
   match_genre w phrase st =
   (Raise e,
    after st [RadioBrowserNew;
              LogInfo ("Searching for a " +:+ stripped_phrase phrase
                       +:+ " station");
              RadioBrowserSearch (ByTag (stripped_phrase phrase) "votes")])).
Proof.
  intros Hrb. split; intros Hs.
  - rewrite match_station_name_unfold. unfold match_station_name_body.
    rewrite (bind_step _ _ _ _ _ (new_RadioBrowser_loaded w st Hrb)).
    run_logs. unfold local. rewrite bind_ret.
    erewrite bind_fail by (rewrite rb_search_run, Hs; reflexivity).
    now rewrite after_after.
  - unfold match_genre. fold (stripped_phrase phrase). cbv zeta.
    rewrite (bind_step _ _ _ _ _ (new_RadioBrowser_loaded w st Hrb)).
    run_logs. unfold local. rewrite bind_ret.
    erewrite bind_fail by (rewrite rb_search_run, Hs; reflexivity).
    now rewrite after_after.
Qed.

Lemma search_failure_propagates_witness :
  fst (match_station_name Sample.down "bbc radio 1" Sample.quiet) =
  Raise (Foreign "ConnectionError('timed out')" true) /\
  fst (match_genre Sample.down "a jazz station" Sample.quiet) =
  Raise (Foreign "ConnectionError('timed out')" true).
Proof.
  destruct (search_failure_propagates Sample.down "bbc radio 1"
              (Foreign "ConnectionError('timed out')" true) Sample.quiet
              eq_refl) as [H1 _].
  destruct (search_failure_propagates Sample.down "a jazz station"
              (Foreign "ConnectionError('timed out')" true) Sample.quiet
              eq_refl) as [_ H2].
  rewrite (H1 eq_refl), (H2 eq_refl). split; reflexivity.
Defined.

(** X3.  The word fallback: with no result, no digit run between
    spaces and a number word in the phrase, every found word is replaced
    by its number wherever it occurs, the resolver is called on the new
    phrase, which has fewer letters, and the value of that call is
    thrown away. *)
Theorem match_station_name_word_fallback (w : world) (phrase : string)
    (value : string -> Z) (st : state) :
  RadioBrowser w = None ->
  search w (ByName phrase) = Return [] ->
  Py.search_digit_run phrase = false ->
  Py.search_number_word phrase = true ->
  Forall (fun number => word_to_num w number = Return (value number))
    (Py.findall_number_words phrase) ->
  let st' := after st [RadioBrowserNew;
                       LogInfo ("Searching for " +:+ phrase);
                       RadioBrowserSearch (ByName phrase)] in
  let retry := words_to_digits value phrase in
  match_station_name w phrase st =
  (discarded (fst (match_station_name w retry st')),
   snd (match_station_name w retry st')) /\
  (Py.letters retry < Py.letters phrase)%nat.
Proof.
  intros Hrb Hs Hd Hw Hv st' retry.
  pose proof (word_loop_run w value _ phrase st' Hv) as Hloop.
  fold (words_to_digits value phrase) in Hloop. fold retry in Hloop.
  split.
  - rewrite match_station_name_unfold.
    rewrite (match_station_name_body_search _ _ _ _ _ Hrb Hs).
    cbv zeta. rewrite Hd, Hw. fold st'.
    rewrite (bind_step _ _ _ _ _ Hloop). unfold bind.
    now destruct (match_station_name w retry st') as [[r|e] st''].
  - apply PyFacts.search_number_word_found in Hw.
    destruct Hw as (number & num & Hf & Hin & Hc).
    unfold Py.findall_number_words in Hloop. rewrite Hf in Hloop.
    now apply (word_loop_lt w number num phrase retry st' st').
Qed.

Lemma match_station_name_word_fallback_witness :
  words_to_digits Sample.to_value "bbc radio one" = "bbc radio 1" /\
  is_match (fst (match_station_name Sample.home "bbc radio 1"
                   (after Sample.quiet
                      [RadioBrowserNew;
                       LogInfo "Searching for bbc radio one";
                       RadioBrowserSearch (ByName "bbc radio one")]))) = true /\
  fst (match_station_name Sample.home "bbc radio one" Sample.quiet)
  = Return None.
Proof.
  split; [reflexivity|]. split; [reflexivity|].
  assert (Hv : Forall
                 (fun number =>
                    word_to_num Sample.home number
                    = Return (Sample.to_value number))
                 (Py.findall_number_words "bbc radio one"))
    by (repeat constructor).
  destruct (match_station_name_word_fallback Sample.home "bbc radio one"
              Sample.to_value Sample.quiet eq_refl eq_refl eq_refl eq_refl Hv)
    as [H _].
  rewrite H. reflexivity.
Defined.

(** X4.  The retries end: a call of [match_station_name] makes at most
    one search more than the phrase has lower-case letters, and leaves
    the player and the daemon as they were. *)
Theorem match_station_name_searches (w : world) (phrase : string)
    (st : state) :
  exists es,
    snd (match_station_name w phrase st) = after st es /\
    (count_searches es <= S (Py.letters phrase))%nat.
Proof.
  unfold match_station_name.
  apply (searches_match_station_name_rec w (S (Py.letters phrase)) phrase st).
  lia.
Qed.

(** X5.  A tuple that [match_station_name] returns is that of the
    first result of the search for the very phrase it was given: what a
    retry finds never comes back. *)
Theorem match_station_name_tuple_origin (w : world) (phrase : string)
    (st : state) (t : match_tuple) :
  fst (match_station_name w phrase st) = Return (Some t) ->
  exists first rest,
    search w (ByName phrase) = Return (first :: rest) /\
    t = (phrase, EXACT, {["url" := url_resolved first]}).
Proof.
  intros H. rewrite match_station_name_unfold in H.
  now apply match_station_name_body_tuple in H.
Qed.

Lemma match_station_name_tuple_origin_witness :
  exists first rest,
    search Sample.home (ByName "bbc radio 1") = Return (first :: rest) /\
    ("bbc radio 1", EXACT,
     ({["url" := "http://stream.example/bbc1"]} : gmap string string)) =
    ("bbc radio 1", EXACT, {["url" := url_resolved first]}).
Proof.
  apply (match_station_name_tuple_origin Sample.home "bbc radio 1"
           Sample.quiet). reflexivity.
Defined.

(** X6.  Through the match operation a genre request is resolved on
    the lower-cased phrase: with [" station"] in it and a result for its
    tag, the tuple carries the phrase in lower case, not as given, and
    the URL of the first result; the tag is the one of the phrase as
    given. *)
Theorem CPS_match_query_phrase_genre (w : world) (phrase : string)
    (first : station) (rest : list station) (st : state) :
  RadioBrowser w = None ->
  Py.contains " station" (Py.lower phrase) = true ->
  search w (ByTag (stripped_phrase phrase) "votes") = Return (first :: rest) ->
  CPS_match_query_phrase w phrase st =
  (Return (Some (Py.lower phrase, EXACT, {["url" := url_resolved first]})),
   after st [RadioBrowserNew;
             LogInfo ("Searching for a " +:+ stripped_phrase phrase
                      +:+ " station");
             RadioBrowserSearch (ByTag (stripped_phrase phrase) "votes");
             LogInfo ("Found " +:+ name first +:+ " (" +:+
                      url_resolved first +:+ ")")]).
Proof.
  intros Hrb Hc Hs. unfold CPS_match_query_phrase, CPS_route. cbv zeta.
  change (Py.truthy "a ") with true. rewrite andb_true_l, Hc.
  rewrite <- stripped_phrase_lower in Hs.
  rewrite (match_genre_search w _ _ st Hrb Hs). cbv zeta.
  now rewrite after_after, stripped_phrase_lower.
Qed.

Lemma CPS_match_query_phrase_genre_witness :
  fst (CPS_match_query_phrase Sample.home "Jazz Radio Station" Sample.quiet) =
  Return (Some ("jazz radio station", EXACT,
                {["url" := "http://stream.example/jazz"]})).
Proof.
  now rewrite (CPS_match_query_phrase_genre Sample.home "Jazz Radio Station"
                 Sample.jazz_fm [Sample.bbc_one] Sample.quiet
                 eq_refl eq_refl eq_refl).
Defined.

(** X7.  Matching has no effect on playback: the match operation only
    logs and calls the directory client; the player and the sink inputs
    are as before, and nothing is played, stopped or written. *)
Theorem CPS_match_query_phrase_effects (w : world) (phrase : string)
    (st : state) :
  exists es,
    snd (CPS_match_query_phrase w phrase st) = after st es /\
    forallb resolver_event es = true.
Proof.
  unfold CPS_match_query_phrase. destruct (CPS_route phrase).
  - apply appends_emits_only;
      [apply appends_match_genre | apply emits_only_match_genre].
  - apply appends_emits_only; [apply appends_match_station_name|].
    apply (emits_only_weaken station_event);
      [apply station_event_resolver | apply emits_only_match_station_name].
Qed.

(** X8.  A match can always be started: the payload of any tuple of
    the match operation has a URL, and [CPS_start] on it, in any state,
    returns after playing that URL. *)
Theorem CPS_match_then_start (w : world) (phrase : string) (st : state)
    (p : string) (level : CPSMatchLevel) (data : gmap string string) :
  fst (CPS_match_query_phrase w phrase st) = Return (Some (p, level, data)) ->
  exists url,
    data !! "url" = Some url /\
    forall st',
      fst (CPS_start p data st') = Return tt /\
      last (trace (snd (CPS_start p data st'))) = Some (AudioPlay url).
Proof.
  intros H.
  assert (Hd : exists first, data = {["url" := url_resolved first]}).
  { unfold CPS_match_query_phrase in H. destruct (CPS_route phrase).
    - apply match_genre_tuple in H. destruct H as (first & rest & _ & H).
      exists first. congruence.
    - rewrite match_station_name_unfold in H.
      apply match_station_name_body_tuple in H.
      destruct H as (first & rest & _ & H). exists first. congruence. }
  destruct Hd as [first ->]. exists (url_resolved first).
  assert (Hu : ({["url" := url_resolved first]} : gmap string string) !! "url"
               = Some (url_resolved first)) by apply lookup_singleton_eq.
  split; [exact Hu|]. intros st'.
  rewrite (CPS_start_run p _ _ st' Hu). simpl. split; [reflexivity|].
  change [LogInfo ("Playing from " +:+ url_resolved first);
          AudioPlay (url_resolved first)]
    with ([LogInfo ("Playing from " +:+ url_resolved first)] ++
          [AudioPlay (url_resolved first)]).
  rewrite !app_assoc. apply last_snoc.
Qed.

Lemma CPS_match_then_start_witness :
  exists url,
    ({["url" := "http://stream.example/bbc1"]} : gmap string string) !! "url"
    = Some url /\
    forall st',
      fst (CPS_start "bbc radio 1" {["url" := "http://stream.example/bbc1"]} st')
      = Return tt /\
      last (trace (snd (CPS_start "bbc radio 1"
                          {["url" := "http://stream.example/bbc1"]} st')))
      = Some (AudioPlay url).
Proof.
  apply (CPS_match_then_start Sample.home "bbc radio 1" Sample.quiet
           "bbc radio 1" EXACT). reflexivity.
Defined.

(** ** The scan of the daemon's answer, in general *)

Lemma scan_line_cases (i : Z) (line : string) (st : state) :
  (exists i',
     scan_line i line st = (Return (i', (i' >? -1) && vlc_line line), st) /\
     (i' = i \/ index_of_line line = Some i')) \/
  (scan_line i line st = (Raise IndexError, st) /\ parses line = false).
Proof.
  unfold scan_line, index_of_line, parses, vlc_line.
  destruct (Py.contains "index" line).
  - destruct (Py.findall_index line) as [|d ds].
    + right. now split.
    + left. exists (Py.int d). rewrite bind_ret. split; [|now right].
      rewrite <- andb_assoc.
      now destruct ((Py.int d >? -1) &&
                    (Py.contains "application.name" line &&
                     Py.contains "VLC" line)).
  - left. exists i. rewrite bind_ret. split; [|now left].
    rewrite <- andb_assoc.
    now destruct ((i >? -1) &&
                  (Py.contains "application.name" line &&
                   Py.contains "VLC" line)).
Qed.

Section ScanFacts.

Context (w : world).

(** What the loop returns, if it returns: the value it started with,
    or the index last read before a VLC line. *)
Lemma sink_input_loop_sound (pending : list string) (v0 i : Z)
    (line : string) (st st' : state) (v : Z) :
  sink_input_loop w pending v0 i line st = (Return v, st') ->
  st' = st /\
  (v = v0 \/
   (0 <= v /\
    (v = i \/ exists l', In l' pending /\ index_of_line l' = Some v) /\
    exists l, In l pending /\ vlc_line l = true)).
Proof.
  revert i line. induction pending as [|next pending IH]; intros i line H.
  - simpl in H. destruct (Py.truthy line).
    + destruct (cli_end w); [|discriminate].
      rewrite (bind_step _ _ _ _ _ (scan_line_empty i st)) in H.
      injection H as <- <-. now split; [|left].
    + injection H as <- <-. now split; [|left].
  - destruct (Py.truthy line) eqn:Hl.
    + rewrite sink_input_loop_cons in H by assumption.
      destruct (scan_line_cases i next st) as [(i' & Hs & Hi)|[Hs _]].
      * rewrite (bind_step _ _ _ _ _ Hs) in H.
        destruct ((i' >? -1) && vlc_line next) eqn:Hb.
        -- injection H as <- <-. split; [reflexivity|]. right.
           apply andb_true_iff in Hb. destruct Hb as [Hgt Hv].
           split; [lia|]. split.
           ++ destruct Hi as [->|Hi]; [now left|].
              right. exists next. split; [now left | assumption].
           ++ exists next. split; [now left | assumption].
        -- apply IH in H. destruct H as [-> H]. split; [reflexivity|].
           destruct H as [->|(Hv & Hidx & l & Hin & Hl')]; [now left|].
           right. split; [assumption|]. split.
           ++ destruct Hidx as [->|(l' & Hin' & Hl'')].
              ** destruct Hi as [->|Hi]; [now left|].
                 right. exists next. split; [now left | assumption].
              ** right. exists l'. split; [now right | assumption].
           ++ exists l. split; [now right | assumption].
      * rewrite (bind_fail _ _ _ _ _ Hs) in H. discriminate.
    + simpl in H. rewrite Hl in H. injection H as <- <-. now split; [|left].
Qed.

(** The loop leaves the state as it is, also when it raises. *)
Lemma sink_input_loop_state (pending : list string) (v0 i : Z)
    (line : string) (st : state) :
  snd (sink_input_loop w pending v0 i line st) = st.
Proof.
  revert i line. induction pending as [|next pending IH]; intros i line.
  - simpl. destruct (Py.truthy line); [|reflexivity].
    destruct (cli_end w); [|reflexivity].
    now rewrite (bind_step _ _ _ _ _ (scan_line_empty i st)).
  - destruct (Py.truthy line) eqn:Hl.
    + rewrite sink_input_loop_cons by assumption.
      destruct (scan_line_cases i next st) as [(i' & Hs & _)|[Hs _]].
      * rewrite (bind_step _ _ _ _ _ Hs).
        destruct ((i' >? -1) && vlc_line next); [reflexivity | apply IH].
      * now rewrite (bind_fail _ _ _ _ _ Hs).
    + simpl. now rewrite Hl.
Qed.

(** Without a VLC line and without a line that fails to parse, the
    loop finds nothing. *)
Lemma sink_input_loop_nothing (pending : list string) (i : Z)
    (line : string) (st : state) :
  forallb (fun l => negb (vlc_line l) && parses l) pending = true ->
  try_except (sink_input_loop w pending (-1) i line) is_socket_timeout
    (fun _ => ret (-1)) st = (Return (-1), st).
Proof.
  revert i line. induction pending as [|next pending IH]; intros i line H.
  - apply sink_input_loop_end.
  - simpl in H. apply andb_true_iff in H. destruct H as [Hn Hp].
    apply andb_true_iff in Hn. destruct Hn as [Hv Hq].
    apply negb_true_iff in Hv.
    destruct (Py.truthy line) eqn:Hl.
    + destruct (scan_line_cases i next st) as [(i' & Hs & _)|[_ Hs]];
        [|congruence].
      rewrite Hv, andb_false_r in Hs.
      rewrite (try_except_ext _ (sink_input_loop w pending (-1) i' next)).
      * now apply IH.
      * rewrite sink_input_loop_cons by assumption.
        now rewrite (bind_step _ _ _ _ _ Hs).
    + unfold try_except. simpl. now rewrite Hl.
Qed.

(** Over some sink blocks the loop returns the index of the first one
    that has a VLC line. *)
Lemma sink_input_loop_blocks (blocks : list (Z * list string)) (i : Z)
    (line : string) (st : state) :
  Py.truthy line = true ->
  sink_blocks blocks = true ->
  try_except (sink_input_loop w (block_lines blocks) (-1) i line)
    is_socket_timeout (fun _ => ret (-1)) st =
  (Return (first_vlc blocks), st).
Proof.
  revert i line. induction blocks as [|[j block] blocks IH];
    intros i line Hl Hb.
  - apply sink_input_loop_end.
  - unfold sink_blocks in Hb. simpl in Hb. apply andb_true_iff in Hb.
    destruct Hb as [Hj Hb]. unfold block_lines. simpl concat.
    fold (block_lines blocks).
    pose proof (sink_input_loop_block w block (block_lines blocks) (-1) i j
                  line st Hl Hj) as H.
    simpl first_vlc. destruct (block_has_vlc block).
    + now apply try_except_Return.
    + destruct H as (line' & Hl' & H).
      rewrite (try_except_ext _
                 (sink_input_loop w (block_lines blocks) (-1) j line'))
        by assumption.
      now apply IH.
Qed.

(** [find_vlc] once connected, whatever the answer. *)
Lemma find_vlc_connected (st : state) :
  connect_to_cli w = None ->
  find_vlc w st =
  (let st1 := after st [CliConnect; CliWrite list_sink_inputs] in
   match cli_reply w list_sink_inputs with
   | [] =>
       match cli_end w with
       | Eof =>
           (Return (-1),
            after st1 [CliClose; LogDebug ("vlc sink: " +:+ Py.str (-1))])
       | Timeout => (Raise SocketTimeout, st1)
       end
   | first :: pending =>
       match try_except (sink_input_loop w pending (-1) (-1) first)
               is_socket_timeout (fun _ => ret (-1)) st1 with
       | (Return v, _) =>
           (Return v,
            after st1 [CliClose; LogDebug ("vlc sink: " +:+ Py.str v)])
       | (Raise e, _) => (Raise e, st1)
       end
   end).
Proof.
  intros Hc. unfold find_vlc. rewrite Hc. cbv zeta.
  unfold construct, readline. run_logs.
  destruct (cli_reply w list_sink_inputs) as [|first pending].
  - destruct (cli_end w) eqn:He; [|reflexivity].
    rewrite bind_ret. unfold bind, try_except. simpl. run_logs.
    now rewrite ?after_after.
  - rewrite bind_ret.
    set (st1 := after st [CliConnect; CliWrite list_sink_inputs]).
    pose proof (sink_input_loop_state pending (-1) (-1) first st1) as Hst.
    unfold bind at 1. unfold try_except.
    destruct (sink_input_loop w pending (-1) (-1) first st1) as [[v|e] st2];
      simpl in Hst; subst st2.
    + run_logs. now rewrite ?after_after.
    + destruct (is_socket_timeout e); [|reflexivity].
      simpl. run_logs. now rewrite ?after_after.
Qed.

Lemma appends_find_vlc : appends (find_vlc w).
Proof.
  intros st. destruct (connect_to_cli w) as [e|] eqn:Hc.
  - exists [CliConnect]. unfold find_vlc. rewrite Hc. reflexivity.
  - rewrite (find_vlc_connected st Hc). cbv zeta.
    destruct (cli_reply w list_sink_inputs) as [|first pending].
    + destruct (cli_end w); eexists; simpl; [|reflexivity].
      now rewrite ?after_after.
    + destruct (try_except _ _ _ _) as [[v|e] st2]; eexists; simpl;
        [|reflexivity].
      now rewrite ?after_after.
Qed.

End ScanFacts.

(** X9.  [find_vlc] over any number of sink blocks after the count
    line: the index of the first block with an [application.name] line
    containing [VLC], and -1 when no block has one. *)
Theorem find_vlc_first_block (w : world) (st : state) (header : string)
    (blocks : list (Z * list string)) :
  connect_to_cli w = None ->
  cli_reply w list_sink_inputs = header :: block_lines blocks ->
  Py.truthy header = true ->
  sink_blocks blocks = true ->
  fst (find_vlc w st) = Return (first_vlc blocks).
Proof.
  intros Hc Hr Hh Hb.
  rewrite (find_vlc_run w header _ (first_vlc blocks) st Hc Hr);
    [reflexivity|].
  intros st'. now apply sink_input_loop_blocks.
Qed.

Lemma find_vlc_first_block_witness :
  fst (find_vlc (with_reply Sample.home
                   (Sample.count_line :: block_lines Sample.three_blocks))
         Sample.quiet) = Return 7.
Proof.
  apply (find_vlc_first_block
           (with_reply Sample.home
              (Sample.count_line :: block_lines Sample.three_blocks))
           Sample.quiet Sample.count_line Sample.three_blocks);
    reflexivity.
Defined.

(** X10.  What [find_vlc] returns is -1 or an index that was read: a
    value other than -1 is not negative, stands in the index field of a
    line after the first, and some line after the first is an
    [application.name] line containing [VLC]. *)
Theorem find_vlc_sound (w : world) (st : state) (v : Z) :
  fst (find_vlc w st) = Return v ->
  v = -1 \/
  (0 <= v /\
   (exists l, In l (tail (cli_reply w list_sink_inputs)) /\
              index_of_line l = Some v) /\
   (exists l, In l (tail (cli_reply w list_sink_inputs)) /\
              vlc_line l = true)).
Proof.
  intros H. destruct (connect_to_cli w) as [e|] eqn:Hc.
  - unfold find_vlc in H. rewrite Hc in H. discriminate.
  - rewrite (find_vlc_connected w st Hc) in H. cbv zeta in H.
    destruct (cli_reply w list_sink_inputs) as [|first pending].
    + destruct (cli_end w); [|discriminate]. injection H as <-. now left.
    + unfold try_except in H.
      destruct (sink_input_loop w pending (-1) (-1) first _)
        as [[v'|e] st2] eqn:Hloop.
      * simpl in H. injection H as ->.
        apply sink_input_loop_sound in Hloop.
        destruct Hloop as [_ [->|(Hv & Hidx & Hl)]]; [now left|].
        right. split; [assumption|]. split; [|exact Hl].
        destruct Hidx as [->|Hidx]; [lia | exact Hidx].
      * destruct (is_socket_timeout e); [|discriminate].
        simpl in H. injection H as <-. now left.
Qed.

Lemma find_vlc_sound_witness :
  7 = -1 \/
  (0 <= 7 /\
   (exists l, In l (tail (cli_reply Sample.home list_sink_inputs)) /\
              index_of_line l = Some 7) /\
   (exists l, In l (tail (cli_reply Sample.home list_sink_inputs)) /\
              vlc_line l = true)).
Proof.
  apply (find_vlc_sound Sample.home Sample.quiet 7). reflexivity.
Defined.

(** X11.  When no line after the first is an [application.name] line
    containing [VLC], and every line that has the word [index] has the
    field, [find_vlc] returns -1, closes the connection and logs the
    value, however the stream ends. *)
Theorem find_vlc_not_found (w : world) (st : state) (first : string)
    (pending : list string) :
  connect_to_cli w = None ->
  cli_reply w list_sink_inputs = first :: pending ->
  forallb (fun l => negb (vlc_line l) && parses l) pending = true ->
  find_vlc w st =
  (Return (-1),
   after st [CliConnect; CliWrite list_sink_inputs; CliClose;
             LogDebug "vlc sink: -1"]).
Proof.
  intros Hc Hr Hp.
  rewrite (find_vlc_run w first pending (-1) st Hc Hr); [reflexivity|].
  intros st'. now apply sink_input_loop_nothing.
Qed.

Lemma find_vlc_not_found_witness :
  fst (find_vlc (with_reply Sample.home
                   (Sample.count_line :: Sample.mpv_3 ++ Sample.mpv_9))
         Sample.quiet) = Return (-1).
Proof.
  now rewrite (find_vlc_not_found
                 (with_reply Sample.home
                    (Sample.count_line :: Sample.mpv_3 ++ Sample.mpv_9))
                 Sample.quiet Sample.count_line
                 (Sample.mpv_3 ++ Sample.mpv_9) eq_refl eq_refl eq_refl).
Defined.

(** X12.  A timeout is caught inside the loop only.  When the daemon
    sends nothing at all, the first read times out outside the handler:
    [find_vlc] raises the timeout and does not close the connection;
    when the stream just ends, it returns -1. *)
Theorem find_vlc_silent_daemon (w : world) (st : state) :
  connect_to_cli w = None ->
  cli_reply w list_sink_inputs = [] ->
  find_vlc w st =
  match cli_end w with
  | Timeout =>
      (Raise SocketTimeout, after st [CliConnect; CliWrite list_sink_inputs])
  | Eof =>
      (Return (-1),
       after st [CliConnect; CliWrite list_sink_inputs; CliClose;
                 LogDebug "vlc sink: -1"])
  end.
Proof.
  intros Hc Hr. rewrite (find_vlc_connected w st Hc), Hr. cbv zeta.
  destruct (cli_end w); [|reflexivity]. now rewrite ?after_after.
Qed.

Lemma find_vlc_silent_daemon_witness :
  find_vlc (with_reply Sample.home []) Sample.quiet =
  (Raise SocketTimeout,
   after Sample.quiet [CliConnect; CliWrite list_sink_inputs]).
Proof.
  apply (find_vlc_silent_daemon (with_reply Sample.home []) Sample.quiet);
    reflexivity.
Defined.

(** X13.  A line that has the word [index] but not the field
    [index: <digits>], met before any VLC line was matched, ends
    [find_vlc] with an index error; the connection is left open. *)
Theorem find_vlc_index_error (w : world) (st : state) (first bad : string)
    (before rest : list string) :
  connect_to_cli w = None ->
  cli_reply w list_sink_inputs = first :: before ++ bad :: rest ->
  Py.truthy first = true ->
  forallb (fun l => Py.truthy l && negb (vlc_line l) && parses l) before
  = true ->
  parses bad = false ->
  find_vlc w st =
  (Raise IndexError, after st [CliConnect; CliWrite list_sink_inputs]).
Proof.
  intros Hc Hr Hf Hb Hbad.
  rewrite (find_vlc_connected w st Hc), Hr. cbv zeta.
  set (st1 := after st [CliConnect; CliWrite list_sink_inputs]).
  assert (H : forall i line,
             Py.truthy line = true ->
             sink_input_loop w (before ++ bad :: rest) (-1) i line st1 =
             (Raise IndexError, st1)).
  { clear Hr. induction before as [|next before IH]; intros i line Hl.
    - simpl app. rewrite sink_input_loop_cons by assumption.
      destruct (scan_line_cases i bad st1) as [(i' & Hs & _)|[Hs _]].
      + unfold scan_line, parses in *.
        destruct (Py.contains "index" bad); [|discriminate].
        destruct (Py.findall_index bad); discriminate.
      + now rewrite (bind_fail _ _ _ _ _ Hs).
    - simpl in Hb. apply andb_true_iff in Hb. destruct Hb as [Hn Hb].
      apply andb_true_iff in Hn. destruct Hn as [Hn Hp].
      apply andb_true_iff in Hn. destruct Hn as [Ht Hv].
      apply negb_true_iff in Hv.
      simpl app. rewrite sink_input_loop_cons by assumption.
      destruct (scan_line_cases i next st1) as [(i' & Hs & _)|[_ Hs]];
        [|congruence].
      rewrite Hv, andb_false_r in Hs.
      rewrite (bind_step _ _ _ _ _ Hs). now apply IH. }
  unfold try_except. rewrite (H (-1) first Hf). reflexivity.
Qed.

Lemma find_vlc_index_error_witness :
  find_vlc
    (with_reply Sample.home
       (Sample.count_line ::
        Sample.mpv_3 ++
        ("        media.name = 'index'" +:+ newline) :: Sample.vlc_7))
    Sample.quiet =
  (Raise IndexError,
   after Sample.quiet [CliConnect; CliWrite list_sink_inputs]).
Proof.
  apply (find_vlc_index_error _ Sample.quiet Sample.count_line
           ("        media.name = 'index'" +:+ newline)
           Sample.mpv_3 Sample.vlc_7); reflexivity.
Defined.

(** ** Failures of the sideband and of the start operation *)

(** X14.  Connection failures are not handled: [find_vlc] ends with what
    [connect_to_cli] raised before any command is written, and
    [set_volume] with what [Pulse] raised before any request. *)
Theorem sideband_connection_failure (w : world) (st : state) :
  (forall e,
     connect_to_cli w = Some e ->
     find_vlc w st = (Raise e, after st [CliConnect])) /\
  (forall e sink_input vol,
     Pulse w = Some e ->
     set_volume w sink_input vol st =
     (Raise e, after st [PulseConnect "radio-skill-pulse-client"])).
Proof.
  split.
  - intros e H. unfold find_vlc. now rewrite H.
  - intros e sink_input vol H. unfold set_volume. now rewrite H.
Qed.

Lemma sideband_connection_failure_witness :
  fst (find_vlc Sample.no_daemon Sample.quiet) =
  Raise (Foreign "FileNotFoundError('cli socket')" true) /\
  fst (set_volume Sample.no_daemon 7 (Some 0.6%float) Sample.quiet) =
  Raise (Foreign "PulseError('connect failed')" true).
Proof.
  destruct (sideband_connection_failure Sample.no_daemon Sample.quiet)
    as [H1 H2].
  rewrite (H1 _ eq_refl), (H2 _ 7 (Some 0.6%float) eq_refl).
  split; reflexivity.
Defined.

(** [set_volume] on a sink input the daemon does not have. *)
Lemma set_volume_missing (w : world) (sink_input : Z) (vol : option float)
    (st : state) :
  Pulse w = None ->
  sink_inputs st !! sink_input = None ->
  set_volume w sink_input vol st =
  (Raise (Foreign "PulseIndexError" true),
   after st [PulseConnect "radio-skill-pulse-client"]).
Proof.
  intros Hp Hs. unfold set_volume. rewrite Hp. cbv zeta.
  unfold construct. run_logs.
  erewrite bind_fail; [reflexivity|].
  unfold pulse_sink_input_info. simpl. now rewrite Hs.
Qed.

(** X15.  [set_volume] touches one sink input only: in every case the
    volumes of the other sink inputs and the player are as before; and
    when it writes, the number of channels of the descriptor is the one
    it fetched. *)
Theorem set_volume_frame (w : world) (sink_input : Z) (vol : option float)
    (st : state) :
  (forall other,
     other <> sink_input ->
     sink_inputs (snd (set_volume w sink_input vol st)) !! other =
     sink_inputs st !! other) /\
  is_playing (snd (set_volume w sink_input vol st)) = is_playing st /\
  (forall written,
     sink_inputs (snd (set_volume w sink_input vol st)) !! sink_input
     = Some written ->
     exists prior,
       sink_inputs st !! sink_input = Some prior /\
       channels written = channels prior).
Proof.
  destruct (Pulse w) as [e|] eqn:Hp.
  - unfold set_volume. rewrite Hp. simpl. repeat split; try reflexivity.
    intros written H. now exists written.
  - destruct (sink_inputs st !! sink_input) as [prior|] eqn:Hs.
    + rewrite (set_volume_run w sink_input vol prior st Hp Hs). simpl.
      repeat split.
      * intros other Ho. now apply lookup_insert_ne.
      * intros written H. rewrite lookup_insert_eq in H.
        injection H as <-. exists prior. split; [reflexivity|].
        unfold channels, set_value_flat. simpl. apply repeat_length.
    + rewrite (set_volume_missing w sink_input vol st Hp Hs). simpl.
      repeat split. intros written H. congruence.
Qed.

Lemma set_volume_frame_witness :
  sink_inputs (snd (set_volume Sample.home 3 (Some 0.6%float) Sample.quiet))
  !! 7 = Some Sample.loud.
Proof.
  rewrite (proj1 (set_volume_frame Sample.home 3 (Some 0.6%float)
                    Sample.quiet) 7); [reflexivity | discriminate].
Defined.

(** X16.  Of two calls of [set_volume] on a sink input, the second
    decides: the volumes the daemon holds afterwards are those after the
    second call alone. *)
Theorem set_volume_twice (w : world) (sink_input : Z) (vol1 vol2 : option float)
    (prior : PulseVolumeInfo) (st : state) :
  Pulse w = None ->
  sink_inputs st !! sink_input = Some prior ->
  sink_inputs
    (snd ((set_volume w sink_input vol1 ;; set_volume w sink_input vol2) st)) =
  sink_inputs (snd (set_volume w sink_input vol2 st)).
Proof.
  intros Hp Hs.
  rewrite (bind_step _ _ _ _ _ (set_volume_run w sink_input vol1 prior st Hp Hs)).
  cbv zeta.
  erewrite (set_volume_run w sink_input vol2 _ _ Hp)
    by (simpl; apply lookup_insert_eq).
  rewrite (set_volume_run w sink_input vol2 prior st Hp Hs).
  simpl. rewrite insert_insert_eq. unfold set_value_flat. simpl.
  now rewrite repeat_length.
Qed.

Lemma set_volume_twice_witness :
  sink_inputs
    (snd ((set_volume Sample.home 7 None ;;
           set_volume Sample.home 7 (Some 0.6%float)) Sample.quiet)) =
  sink_inputs (snd (set_volume Sample.home 7 (Some 0.6%float) Sample.quiet)).
Proof.
  apply (set_volume_twice Sample.home 7 None (Some 0.6%float) Sample.loud
           Sample.quiet); reflexivity.
Defined.

(** X17.  [CPS_start] on a dictionary without a URL: the current
    playback, if any, has been stopped by the time the lookup fails, so
    the call ends with a key error, nothing played and the player
    stopped. *)
Theorem CPS_start_without_url (phrase : string) (data : gmap string string)
    (st : state) :
  data !! "url" = None ->
  CPS_start phrase data st =
  (Raise (KeyError "url"),
   {| is_playing := false;
      sink_inputs := sink_inputs st;
      trace := trace st ++ (if is_playing st then [AudioStop] else []) |}).
Proof.
  intros Hu.
  unfold CPS_start, bind, audioservice_is_playing, getitem, audioservice_stop,
    ret, raise.
  rewrite Hu. destruct st as [playing sinks tr]. simpl.
  destruct playing; [reflexivity|]. now rewrite app_nil_r.
Qed.

Lemma CPS_start_without_url_witness :
  CPS_start "jazz" (∅ : gmap string string) Sample.busy =
  (Raise (KeyError "url"),
   {| is_playing := false;
      sink_inputs := sink_inputs Sample.busy;
      trace := [AudioStop] |}).
Proof.
  apply (CPS_start_without_url "jazz" ∅ Sample.busy). reflexivity.
Defined.

(** ** The intent handlers *)

Section Handlers.

Context (w : world).

Lemma emits_only_sink_input_loop (P : event -> bool) (pending : list string)
    (v0 i : Z) (line : string) :
  emits_only P (sink_input_loop w pending v0 i line).
Proof.
  intros st. exists []. rewrite sink_input_loop_state, app_nil_r. now split.
Qed.

Lemma emits_only_find_vlc (P : event -> bool) :
  P CliConnect = true -> P CliClose = true ->
  (forall data, P (CliWrite data) = true) ->
  (forall msg, P (LogDebug msg) = true) ->
  emits_only P (find_vlc w).
Proof.
  intros H1 H2 H3 H4. unfold find_vlc. cbv zeta.
  apply emits_only_bind; [now apply emits_only_emit | intros _].
  apply emits_only_bind; [emits_steps | intros _].
  apply emits_only_bind; [now apply emits_only_emit | intros _].
  apply emits_only_bind; [unfold readline; emits_steps | intros [line pending]].
  apply emits_only_bind.
  - apply emits_only_try_except;
      [apply emits_only_sink_input_loop | intros _; apply emits_only_ret].
  - intros v. apply emits_only_bind; [now apply emits_only_emit | intros _].
    apply emits_only_bind; [now apply emits_only_emit | intros _].
    apply emits_only_ret.
Qed.

Lemma emits_only_set_volume (P : event -> bool) (sink_input : Z)
    (vol : option float) :
  (forall client_name, P (PulseConnect client_name) = true) ->
  (forall i v, P (PulseVolumeSet i v) = true) ->
  P PulseClose = true ->
  emits_only P (set_volume w sink_input vol).
Proof.
  intros H1 H2 H3 st. destruct (Pulse w) as [e|] eqn:Hp.
  - exists [PulseConnect "radio-skill-pulse-client"].
    unfold set_volume. rewrite Hp. simpl. now rewrite H1.
  - destruct (sink_inputs st !! sink_input) as [prior|] eqn:Hs.
    + rewrite (set_volume_run w sink_input vol prior st Hp Hs). simpl.
      eexists. split; [reflexivity|]. simpl. now rewrite H1, H2, H3.
    + rewrite (set_volume_missing w sink_input vol st Hp Hs). simpl.
      eexists. split; [reflexivity|]. simpl. now rewrite H1.
Qed.

Lemma emits_only_CPS_play (P : event -> bool) (url : string) :
  P (CPSPlay url) = true -> P (AudioPlay url) = true ->
  emits_only P (CPS_play url).
Proof.
  intros H1 H2 st. exists [CPSPlay url; AudioPlay url].
  unfold CPS_play, bind, emit, audioservice_play, after. simpl.
  rewrite H1, H2, <- app_assoc. now split.
Qed.

Lemma emits_only_handle_intent (message_data : gmap string string)
    (type : string) :
  emits_only (fun e => negb (is_tag_search e))
    (handle_intent w message_data type).
Proof.
  unfold handle_intent.
  apply emits_only_bind; [emits_steps | intros utterance].
  apply emits_only_bind.
  { apply (emits_only_weaken station_event);
      [|apply emits_only_match_station_name].
    now intros [| | | |[]| | | | | | | | |]. }
  intros matched_station.
  apply emits_only_bind; [emits_steps | intros url].
  apply emits_only_bind; [emits_steps | intros _].
  apply emits_only_bind; [emits_steps | intros url'].
  apply emits_only_bind; [now apply emits_only_CPS_play | intros _].
  apply emits_only_bind; [now apply emits_only_find_vlc | intros vlc].
  apply emits_only_bind; [emits_steps | intros _].
  now apply emits_only_set_volume.
Qed.

(** [handle_intent] up to the point where the resolver has answered. *)
Lemma handle_intent_resolved (message_data : gmap string string)
    (type utterance : string) (r : option match_tuple) (st st1 : state) :
  message_data !! type = Some utterance ->
  match_station_name w utterance st = (Return r, st1) ->
  handle_intent w message_data type st =
  (url <- matched_url r ;;
   LOG_info ("Playing from " +:+ url) ;;
   url <- matched_url r ;;
   CPS_play url ;;
   vlc <- find_vlc w ;;
   LOG_info "setting volume for VLC to 0.6" ;;
   set_volume w vlc (Some 0.6%float)) st1.
Proof.
  intros Hm Hs. unfold handle_intent, getitem. rewrite Hm, bind_ret.
  now rewrite (bind_step _ _ _ _ _ Hs).
Qed.

End Handlers.

(** X18.  The handlers guard neither the slot nor the answer of the
    resolver.  A message without the slot of the intent ends the handler
    with a key error before anything is searched; and when
    [match_station_name] returns [None], the handler ends with a type
    error on the subscript.  In both cases nothing is played and no
    volume is set. *)
Theorem handle_intent_unguarded (w : world) (message_data : gmap string string)
    (type : string) (st : state) :
  (message_data !! type = None ->
   handle_intent w message_data type st = (Raise (KeyError type), st)) /\
  (forall utterance st1,
     message_data !! type = Some utterance ->
     match_station_name w utterance st = (Return None, st1) ->
     handle_intent w message_data type st =
     (Raise (TypeError "'NoneType' object is not subscriptable"), st1)).
Proof.
  split.
  - intros H. unfold handle_intent, getitem. now rewrite H.
  - intros utterance st1 Hm Hs.
    now rewrite (handle_intent_resolved w _ _ _ _ _ _ Hm Hs).
Qed.

Lemma handle_intent_unguarded_witness :
  handle_radio_genre Sample.home {["station" := "bbc radio 1"]} Sample.quiet =
  (Raise (KeyError "genre"), Sample.quiet) /\
  handle_radio_station Sample.home {["station" := "unheard fm"]} Sample.quiet =
  (Raise (TypeError "'NoneType' object is not subscriptable"),
   after Sample.quiet [RadioBrowserNew;
                       LogInfo "Searching for unheard fm";
                       RadioBrowserSearch (ByName "unheard fm")]).
Proof.
  split.
  - apply (proj1 (handle_intent_unguarded Sample.home
                    {["station" := "bbc radio 1"]} "genre" Sample.quiet)).
    reflexivity.
  - apply (proj2 (handle_intent_unguarded Sample.home
                    {["station" := "unheard fm"]} "station" Sample.quiet)
             "unheard fm"); reflexivity.
Defined.

(** X19.  The handlers do not guard the result of [find_vlc]: when no
    VLC sink input is found, the -1 goes to [set_volume], and, the daemon
    having no sink input of that index, the handler ends with the error
    of the lookup after playback was started; no volume is written. *)
Theorem handle_intent_vlc_not_found (w : world)
    (message_data : gmap string string) (type utterance : string)
    (t : match_tuple) (url : string) (st st1 st2 : state) :
  message_data !! type = Some utterance ->
  match_station_name w utterance st = (Return (Some t), st1) ->
  t.2 !! "url" = Some url ->
  find_vlc w (started st1 url) = (Return (-1), st2) ->
  Pulse w = None ->
  sink_inputs st !! (-1) = None ->
  exists es,
    handle_intent w message_data type st =
    (Raise (Foreign "PulseIndexError" true),
     after (started st1 url)
       (es ++ [LogInfo "setting volume for VLC to 0.6";
               PulseConnect "radio-skill-pulse-client"])).
Proof.
  intros Hm Hs Hu Hv Hp Hn.
  rewrite (handle_intent_run w _ _ _ t url (-1) st st1 st2 Hm Hs Hu Hv).
  destruct (appends_match_station_name w utterance st) as [es1 H1].
  rewrite Hs in H1. simpl in H1.
  destruct (appends_find_vlc w (started st1 url)) as [es H2].
  rewrite Hv in H2. simpl in H2. exists es.
  rewrite set_volume_missing; [|assumption|].
  - rewrite H2, !after_after. reflexivity.
  - now rewrite H2, H1.
Qed.

Lemma handle_intent_vlc_not_found_witness :
  fst (handle_radio_station
         (with_reply Sample.home
            (Sample.count_line :: Sample.mpv_3 ++ Sample.mpv_9))
         {["station" := "bbc radio 1"]} Sample.quiet) =
  Raise (Foreign "PulseIndexError" true).
Proof.
  set (w := with_reply Sample.home
              (Sample.count_line :: Sample.mpv_3 ++ Sample.mpv_9)).
  assert (Hm : ({["station" := "bbc radio 1"]} : gmap string string)
               !! "station" = Some "bbc radio 1") by reflexivity.
  pose proof (match_station_name_found w "bbc radio 1" Sample.bbc_one []
                Sample.quiet eq_refl eq_refl) as Hs.
  assert (Hu : ("bbc radio 1", EXACT,
                ({["url" := url_resolved Sample.bbc_one]}
                 : gmap string string)).2 !! "url"
               = Some "http://stream.example/bbc1") by reflexivity.
  assert (Hn : sink_inputs Sample.quiet !! (-1) = None) by reflexivity.
  destruct (handle_intent_vlc_not_found w _ "station" _ _ _ Sample.quiet _ _
              Hm Hs Hu
              (find_vlc_run w Sample.count_line
                 (Sample.mpv_3 ++ Sample.mpv_9) (-1) _ eq_refl eq_refl
                 (fun st' =>
                    sink_input_loop_nothing w (Sample.mpv_3 ++ Sample.mpv_9)
                      (-1) Sample.count_line st' eq_refl))
              eq_refl Hn) as [es H].
  unfold handle_radio_station. now rewrite H.
Defined.

(** X20.  A request that goes through: the station is found by name,
    the daemon's answer has the count line and sink blocks, one of them
    VLC's, and the daemon has that sink input.  The handler then
    returns, having handed the URL of the first result to [CPS_play], so
    that the player is playing, and written a descriptor with every
    channel at 0.6 for VLC's sink input, the other sink inputs
    untouched. *)
Theorem handle_intent_plays_and_sets_volume (w : world)
    (message_data : gmap string string) (type utterance : string)
    (first : station) (rest : list station) (header : string)
    (blocks : list (Z * list string)) (prior : PulseVolumeInfo) (st : state) :
  message_data !! type = Some utterance ->
  RadioBrowser w = None ->
  search w (ByName utterance) = Return (first :: rest) ->
  connect_to_cli w = None ->
  cli_reply w list_sink_inputs = header :: block_lines blocks ->
  Py.truthy header = true ->
  sink_blocks blocks = true ->
  Pulse w = None ->
  sink_inputs st !! first_vlc blocks = Some prior ->
  let written := {| values := repeat 0.6%float (channels prior) |} in
  handle_intent w message_data type st =
  (Return tt,
   {| is_playing := true;
      sink_inputs := <[first_vlc blocks := written]> (sink_inputs st);
      trace :=
        trace st ++
        [RadioBrowserNew;
         LogInfo ("Searching for " +:+ utterance);
         RadioBrowserSearch (ByName utterance);
         LogInfo ("Found " +:+ name first +:+ " (" +:+ url_resolved first
                  +:+ ")");
         LogInfo ("Playing from " +:+ url_resolved first);
         CPSPlay (url_resolved first);
         AudioPlay (url_resolved first);
         CliConnect; CliWrite list_sink_inputs; CliClose;
         LogDebug ("vlc sink: " +:+ Py.str (first_vlc blocks));
         LogInfo "setting volume for VLC to 0.6";
         PulseConnect "radio-skill-pulse-client";
         PulseVolumeSet (first_vlc blocks) written;
         PulseClose] |}).
Proof.
  intros Hm Hrb Hs Hc Hr Hh Hb Hp Hv written.
  pose proof (match_station_name_found w utterance first rest st Hrb Hs)
    as Hfound.
  assert (Hu : (utterance, EXACT,
                ({["url" := url_resolved first]} : gmap string string)).2
               !! "url" = Some (url_resolved first))
    by apply lookup_singleton_eq.
  assert (Hloop : forall st',
             try_except
               (sink_input_loop w (block_lines blocks) (-1) (-1) header)
               is_socket_timeout (fun _ => ret (-1)) st' =
             (Return (first_vlc blocks), st'))
    by (intros st'; now apply sink_input_loop_blocks).
  rewrite (handle_intent_run w _ _ _ _ _ _ st _ _ Hm Hfound Hu
             (find_vlc_run w header _ _ _ Hc Hr Hloop)).
  rewrite !after_after.
  erewrite (set_volume_run w _ _ prior _ Hp) by exact Hv.
  cbv zeta. simpl. subst written. unfold set_value_flat, channels.
  now rewrite <- !app_assoc.
Qed.

Lemma handle_intent_plays_and_sets_volume_witness :
  fst (handle_radio_station Sample.home {["station" := "bbc radio 1"]}
         Sample.quiet) = Return tt /\
  is_playing (snd (handle_radio_station Sample.home
                     {["station" := "bbc radio 1"]} Sample.quiet)) = true /\
  sink_inputs (snd (handle_radio_station Sample.home
                      {["station" := "bbc radio 1"]} Sample.quiet)) !! 7 =
  Some {| values := [0.6%float; 0.6%float] |}.
Proof.
  unfold handle_radio_station.
  erewrite (handle_intent_plays_and_sets_volume Sample.home
              {["station" := "bbc radio 1"]} "station" "bbc radio 1"
              Sample.bbc_one [] Sample.count_line
              [(3, Sample.mpv_3); (7, Sample.vlc_7)] Sample.loud Sample.quiet);
    [repeat split; reflexivity | reflexivity..].
Defined.

(** X21.  The genre intent is served by name: [handle_radio_genre]
    resolves its slot with [match_station_name], like
    [handle_radio_station], and whatever the message and the world, it
    makes no search by tag. *)
Theorem handle_radio_genre_by_name (w : world)
    (message_data : gmap string string) (st : state) :
  exists es,
    trace (snd (handle_radio_genre w message_data st)) = trace st ++ es /\
    forallb (fun e => negb (is_tag_search e)) es = true.
Proof. apply emits_only_handle_intent. Qed.
